(** * Completion provider of tabnine-vscode: [src/provideCompletionItems.ts]

    A shallow embedding of the completion provider and of the parts of the
    JavaScript and VS Code APIs it calls, followed by the properties of the
    provider.  JavaScript strings are sequences of UTF-16 code units,
    exceptions are explicit completion records, and the observable calls
    (document reads, regular-expression tests, the service request and the
    console) are recorded in a trace. *)

From Stdlib Require Import ZArith NArith List Bool Ascii String Lia.
From stdpp Require Import base option list gmap strings.

Local Open Scope Z_scope.

(** ** JavaScript values *)

Module Js.

(** A JavaScript string: its UTF-16 code units. *)
Abbreviation JsString := (list N).

(** String literals of the source, written in ASCII. *)
Fixpoint lit (s : string) : JsString :=
  match s with
  | EmptyString => []
  | String a rest => N_of_ascii a :: lit rest
  end.

Definition DOLLAR : N := 36.
Definition AMPERSAND : N := 38.
Definition QUOTE : N := 39.
Definition BACKTICK : N := 96.
Definition BACKSLASH : N := 92.
Definition RBRACE : N := 125.
Definition LF : N := 10.
Definition CR : N := 13.

(** [a === b] on strings. *)
Fixpoint eqb (a b : JsString) : bool :=
  match a, b with
  | [], [] => true
  | x :: a', y :: b' => (x =? y)%N && eqb a' b'
  | _, _ => false
  end.

Fixpoint startsWith (s p : JsString) {struct p} : bool :=
  match p, s with
  | [], _ => true
  | y :: p', x :: s' => (x =? y)%N && startsWith s' p'
  | _ :: _, [] => false
  end.

(** [s.endsWith(p)] *)
Definition endsWith (s p : JsString) : bool :=
  startsWith (rev s) (rev p).

(** [s.includes(p)] *)
Fixpoint includes (s p : JsString) : bool :=
  startsWith s p ||
  match s with
  | [] => false
  | _ :: s' => includes s' p
  end.

(** [s.substring(a, b)] for [a <= b]. *)
Definition substring (s : JsString) (a b : nat) : JsString :=
  take (b - a) (drop a s).

(** [String.fromCharCode(n)]: the code unit [n] modulo 2^16. *)
Definition fromCharCode (n : N) : JsString := [(n mod 65536)%N].

(** Truthiness of a string: the empty string is falsy. *)
Definition truthy (s : JsString) : bool :=
  match s with [] => false | _ :: _ => true end.

(** Truthiness of an optional string property ([undefined] is falsy). *)
Definition truthy_opt (o : option JsString) : bool :=
  match o with Some s => truthy s | None => false end.

(** Strict ordering of strings, code unit by code unit ([a < b]). *)
Fixpoint ltb (a b : JsString) : bool :=
  match a, b with
  | _, [] => false
  | [], _ :: _ => true
  | x :: a', y :: b' => (x <? y)%N || ((x =? y)%N && ltb a' b')
  end.

(** [parts.join(sep)] *)
Fixpoint join (sep : JsString) (parts : list JsString) : JsString :=
  match parts with
  | [] => []
  | [p] => p
  | p :: rest => p ++ sep ++ join sep rest
  end.

(** Decimal rendering of a non-negative integer ([String(n)]). *)
Fixpoint digits (fuel n : nat) (acc : JsString) : JsString :=
  match fuel with
  | O => acc
  | S fuel' =>
      let acc' := (48 + N.of_nat (n mod 10))%N :: acc in
      if (n / 10 =? 0)%nat then acc' else digits fuel' (n / 10) acc'
  end.

Definition Number_toString (n : nat) : JsString := digits (S n) n [].

(** GetSubstitution (ECMA-262) for a match without capture groups:
    [$$] is a dollar sign, [$&] the match, [$`] the text before it and
    [$'] the text after it; every other code unit, a lone or trailing
    [$] included, stands for itself. *)
Fixpoint GetSubstitution (matched before after template : JsString)
  : JsString :=
  match template with
  | [] => []
  | c :: rest =>
      if (c =? DOLLAR)%N then
        match rest with
        | d :: rest' =>
            if (d =? DOLLAR)%N then
              DOLLAR :: GetSubstitution matched before after rest'
            else if (d =? AMPERSAND)%N then
              matched ++ GetSubstitution matched before after rest'
            else if (d =? BACKTICK)%N then
              before ++ GetSubstitution matched before after rest'
            else if (d =? QUOTE)%N then
              after ++ GetSubstitution matched before after rest'
            else c :: GetSubstitution matched before after rest
        | [] => [c]
        end
      else c :: GetSubstitution matched before after rest
  end.

(** [value.replace(re, template)] for a global regular expression [re]
    whose matches are exactly the single code units of the class [cls]:
    the string is scanned from the left and every match is replaced by
    the expansion of the template. *)
Fixpoint replace_g (cls : N -> bool) (template before value : JsString)
  : JsString :=
  match value with
  | [] => []
  | x :: rest =>
      if cls x then
        GetSubstitution [x] before rest template
          ++ replace_g cls template (before ++ [x]) rest
      else x :: replace_g cls template (before ++ [x]) rest
  end.

(** A thrown value, with what [`${e}`] renders it as. *)
Record JsError := mkError { err_name : JsString; err_message : JsString }.

Definition error_toString (e : JsError) : JsString :=
  err_name e ++ lit ": " ++ err_message e.

(** A completion record: normal completion with a value, or a throw. *)
Inductive Completion (A : Type) : Type :=
| Normal (a : A)
| Throw (e : JsError).
Arguments Normal {A} a.
Arguments Throw {A} e.

End Js.
Import Js.

(** ** The VS Code API used by the provider *)

Module VSCode.

(** [vscode.Position]: zero-based line and character (UTF-16) indices. *)
Record Position := mkPosition { line : nat; character : nat }.

Definition illegalArgument (what : string) : JsError :=
  mkError (lit "Error") (lit "Illegal argument: " ++ lit what).

(** [new Position(line, character)] rejects negative coordinates. *)
Definition new_Position (l c : Z) : Completion Position :=
  if l <? 0 then Throw (illegalArgument "line must be non-negative")
  else if c <? 0 then
    Throw (illegalArgument "character must be non-negative")
  else Normal (mkPosition (Z.to_nat l) (Z.to_nat c)).

(** [position.translate(lineDelta, characterDelta)] *)
Definition translate (p : Position) (lineDelta characterDelta : Z)
  : Completion Position :=
  new_Position (Z.of_nat (line p) + lineDelta)
               (Z.of_nat (character p) + characterDelta).

(** [position.with({ character })] *)
Definition with_character (p : Position) (c : nat) : Position :=
  mkPosition (line p) c.

Definition isBefore (p q : Position) : bool :=
  (line p <? line q)%nat
  || ((line p =? line q)%nat && (character p <? character q)%nat).

(** [vscode.Range]; the constructor orders its two ends. *)
Record Range := mkRange { range_start : Position; range_end : Position }.

Definition new_Range (a b : Position) : Range :=
  if isBefore a b then mkRange a b else mkRange b a.

Inductive EndOfLine := EOL_LF | EOL_CRLF.

Definition eol_text (e : EndOfLine) : JsString :=
  match e with EOL_LF => [LF] | EOL_CRLF => [CR; LF] end.

(** [vscode.TextDocument]: the path and the lines of the buffer. *)
Record TextDocument := mkDocument {
  fileName : JsString;
  lines : list JsString;
  eol : EndOfLine
}.

Definition lineText (d : TextDocument) (l : nat) : JsString :=
  default [] (lines d !! l).

(** Positions are clamped into the document before use. *)
Definition validatePosition (d : TextDocument) (p : Position) : Position :=
  match length (lines d) with
  | O => mkPosition 0 0
  | S last =>
      if (S last <=? line p)%nat then
        mkPosition last (length (lineText d last))
      else
        mkPosition (line p)
          (Nat.min (character p) (length (lineText d (line p))))
  end.

Definition validateRange (d : TextDocument) (r : Range) : Range :=
  mkRange (validatePosition d (range_start r))
          (validatePosition d (range_end r)).

(** Total length of the first [n] lines with their line ends. *)
Definition lineStart (d : TextDocument) (n : nat) : nat :=
  foldr (fun l acc => length l + length (eol_text (eol d)) + acc)%nat
        O (take n (lines d)).

(** [document.offsetAt(position)] *)
Definition offsetAt (d : TextDocument) (p : Position) : Z :=
  let p' := validatePosition d p in
  Z.of_nat (lineStart d (line p') + character p').

(** The line holding an offset and the remainder within it; an offset
    past the end falls on the last line. *)
Fixpoint indexOf (eolLen : nat) (ls : list JsString) (idx sum : nat)
  : nat * nat :=
  match ls with
  | [] => (idx, sum)
  | l :: rest =>
      match rest with
      | [] => (idx, sum)
      | _ :: _ =>
          if (sum <? length l + eolLen)%nat then (idx, sum)
          else indexOf eolLen rest (S idx) (sum - (length l + eolLen))
      end
  end.

(** [document.positionAt(offset)] *)
Definition positionAt (d : TextDocument) (offset : Z) : Position :=
  let offset := Z.to_nat (Z.max 0 offset) in
  let '(idx, remainder) :=
    indexOf (length (eol_text (eol d))) (lines d) O offset in
  mkPosition idx (Nat.min remainder (length (lineText d idx))).

(** Lines [from .. from + count - 1], each preceded by a line end. *)
Fixpoint middleLines (d : TextDocument) (from count : nat) : JsString :=
  match count with
  | O => []
  | S count' =>
      eol_text (eol d) ++ lineText d from ++ middleLines d (S from) count'
  end.

(** [document.getText(range)] *)
Definition getText (d : TextDocument) (r : Range) : JsString :=
  let r := validateRange d r in
  let s := range_start r in
  let e := range_end r in
  if (line s =? line e)%nat then
    substring (lineText d (line s)) (character s) (character e)
  else
    drop (character s) (lineText d (line s))
      ++ middleLines d (S (line s)) (line e - line s - 1)
      ++ eol_text (eol d) ++ take (character e) (lineText d (line e)).

(** [document.lineAt(position).range.start]; a line outside the
    document is rejected. *)
Definition lineAt_start (d : TextDocument) (p : Position)
  : Completion Position :=
  if (line p <? length (lines d))%nat then Normal (mkPosition (line p) 0)
  else Throw (mkError (lit "Error") (lit "Illegal value for `line`")).

(** [vscode.SnippetString] *)
Record SnippetString := mkSnippet { value : JsString }.

(** [new SnippetString(value)] *)
Definition new_SnippetString (v : JsString) : SnippetString := mkSnippet v.

(** [SnippetString._escape]: [value.replace(/\$|}|\\/g, '\\$&')] *)
Definition snippet_escape (s : JsString) : JsString :=
  replace_g (fun c => (c =? DOLLAR)%N || (c =? RBRACE)%N
                      || (c =? BACKSLASH)%N)
            [BACKSLASH; DOLLAR; AMPERSAND] [] s.

Definition appendTabstop (n : nat) (s : SnippetString) : SnippetString :=
  mkSnippet (value s ++ [DOLLAR] ++ Number_toString n).

Definition appendText (text : JsString) (s : SnippetString)
  : SnippetString :=
  mkSnippet (value s ++ snippet_escape text).

(** [vscode.MarkdownString] *)
Record MarkdownString := mkMarkdown { md_value : JsString }.

(** [vscode.CompletionItemKind], a numeric enumeration from [Text = 0]. *)
Inductive CompletionItemKind :=
| KText | KMethod | KFunction | KConstructor | KField | KVariable
| KClass | KInterface | KModule | KProperty | KUnit | KValue | KEnum
| KKeyword | KSnippet | KColor | KFile | KReference | KFolder
| KEnumMember | KConstant | KStruct | KEvent | KOperator
| KTypeParameter | KUser | KIssue.

Definition kind_code (k : CompletionItemKind) : N :=
  match k with
  | KText => 0 | KMethod => 1 | KFunction => 2 | KConstructor => 3
  | KField => 4 | KVariable => 5 | KClass => 6 | KInterface => 7
  | KModule => 8 | KProperty => 9 | KUnit => 10 | KValue => 11
  | KEnum => 12 | KKeyword => 13 | KSnippet => 14 | KColor => 15
  | KFile => 16 | KReference => 17 | KFolder => 18 | KEnumMember => 19
  | KConstant => 20 | KStruct => 21 | KEvent => 22 | KOperator => 23
  | KTypeParameter => 24 | KUser => 25 | KIssue => 26
  end%N.

(** Truthiness of an optional kind: [undefined] and the number 0 are
    falsy. *)
Definition truthy_kind (k : option CompletionItemKind) : bool :=
  match k with
  | None => false
  | Some k => negb (kind_code k =? 0)%N
  end.

End VSCode.
Import VSCode.

(** ** Types of the requests to the completion service *)

Module Requests.

(** Modelled from the spec: the type [MarkdownStringSpec] of
    [./binary/requests/requests], the tagged rich-text variant of a
    documentation, with the tag and the value the provider reads. *)
Record MarkdownStringSpec := mkSpec {
  doc_kind : JsString;
  doc_value : JsString
}.

(** Modelled from the spec: the documentation of a candidate, plain text
    or a tagged variant ([string | MarkdownStringSpec] in the signature of
    [formatDocumentation]). *)
Inductive Documentation :=
| DocString (s : JsString)
| DocSpec (m : MarkdownStringSpec).

(** Modelled from the spec: the type [ResultEntry] of
    [./binary/requests/requests], one candidate, with the properties the
    provider reads; [kind] is assigned to the kind of the item, a
    [vscode.CompletionItemKind]. *)
Record ResultEntry := mkEntry {
  new_prefix : JsString;
  old_suffix : JsString;
  new_suffix : JsString;
  kind : option CompletionItemKind;
  detail : option JsString;
  documentation : option Documentation
}.

(** Modelled from the spec: the type [AutocompleteResult] of
    [./binary/requests/requests], the response envelope. *)
Record AutocompleteResult := mkResult {
  old_prefix : JsString;
  results : list ResultEntry;
  user_message : option (list JsString)
}.

(** The argument of [autocomplete], as the provider builds it. *)
Record AutocompleteParams := mkParams {
  filename : JsString;
  before : JsString;
  after : JsString;
  region_includes_beginning : bool;
  region_includes_end : bool;
  max_num_results : Z
}.

(** Truthiness of an optional documentation: an object is truthy, a
    string is truthy unless empty. *)
Definition truthy_documentation (d : option Documentation) : bool :=
  match d with
  | None => false
  | Some (DocString s) => truthy s
  | Some (DocSpec _) => true
  end.

End Requests.
Import Requests.

(** ** Completion items *)

Record CompletionArguments := mkArguments {
  currentCompletion : JsString;
  completions : list ResultEntry;
  position : Position
}.

Record Command := mkCommand {
  arguments : list CompletionArguments;
  command : JsString;
  title : JsString
}.

(** What [formatDocumentation] can return.  Its declared type is
    [string | vscode.MarkdownString]; its last branch returns the argument
    itself, which may be a tagged object. *)
Inductive FormattedDocumentation :=
| FText (s : JsString)
| FMarkdown (m : MarkdownString)
| FSpec (m : MarkdownStringSpec).

(** [vscode.CompletionItem], with the properties the provider sets. *)
Record CompletionItem := mkItem {
  label : JsString;
  sortText : JsString;
  insertText : SnippetString;
  filterText : JsString;
  preselect : bool;
  item_kind : option CompletionItemKind;
  range : Range;
  item_command : option Command;
  item_documentation : option FormattedDocumentation;
  item_detail : JsString
}.

(** [vscode.CompletionList] *)
Record CompletionList := mkList {
  items : list CompletionItem;
  isIncomplete : bool
}.

Record CancellationToken := mkToken { isCancellationRequested : bool }.

Record CompletionContext := mkContext {
  triggerKind : N;
  triggerCharacter : option JsString
}.

(** ** Observable calls and the effect monad *)

Inductive Event :=
| EvGetText (r : Range)
| EvRegExpTest (pattern subject : JsString)
| EvAutocomplete (request : AutocompleteParams)
| EvConsoleError (message : JsString).

(** A computation yields a completion record and the calls it made, in
    order. *)
Definition Eff (A : Type) : Type := Completion A * list Event.

Definition ret {A} (a : A) : Eff A := (Normal a, []).

Definition lift {A} (c : Completion A) : Eff A := (c, []).

Definition emit (ev : Event) : Eff unit := (Normal tt, [ev]).

Definition bind {A B} (m : Eff A) (k : A -> Eff B) : Eff B :=
  match m with
  | (Normal a, t) => let '(r, t') := k a in (r, t ++ t')
  | (Throw e, t) => (Throw e, t)
  end.

(** [try { m } catch (e) { handler e }] *)
Definition try_catch {A} (m : Eff A) (handler : JsError -> Eff A) : Eff A :=
  match m with
  | (Normal a, t) => (Normal a, t)
  | (Throw e, t) => let '(r, t') := handler e in (r, t ++ t')
  end.

Declare Scope eff_scope.
Delimit Scope eff_scope with eff.
Notation "'let*' x ':=' m 'in' k" := (bind m (fun x => k))
  (at level 10, x name, m at level 100, k at level 200) : eff_scope.
Notation "'do*' m 'in' k" := (bind m (fun _ => k))
  (at level 10, m at level 100, k at level 200) : eff_scope.
Local Open Scope eff_scope.

Definition outcome {A} (m : Eff A) : Completion A := fst m.
Definition trace {A} (m : Eff A) : list Event := snd m.

(** ** Ambient state: capabilities, settings, constants and the service *)

(** Modelled from the spec: the capabilities of [./capabilities] that the
    provider asks for. *)
Inductive Capability :=
| ON_BOARDING_CAPABILITY
| SUGGESTIONS_SINGLE
| SUGGESTIONS_TWO.

(** What the provider reads from its surroundings.  The functions and
    constants of [./capabilities], [./extensionContext], [./consts],
    [./selectionHandler] and [./binary/requests/requests] are parameters. *)
Record Ambient := mkAmbient {
  (** [isCapabilityEnabled] of [./capabilities] *)
  isCapabilityEnabled : Capability -> bool;
  (** [tabnineContext.isTabNineAutoImportEnabled] *)
  isTabNineAutoImportEnabled : bool;
  (** [vscode.workspace.getConfiguration().get] *)
  configuration : gmap string (list JsString);
  (** [new RegExp(pattern).test(subject)]; a malformed pattern throws *)
  RegExp_test : JsString -> JsString -> Completion bool;
  (** the awaited [autocomplete] request; a rejection is a throw *)
  autocomplete : AutocompleteParams -> Completion (option AutocompleteResult);
  (** [./consts] and [./selectionHandler] *)
  CHAR_LIMIT : Z;
  DEFAULT_DETAIL : JsString;
  MAX_NUM_RESULTS : Z;
  COMPLETION_IMPORTS : JsString
}.

(** ** The provider *)

Section Provider.

Variable amb : Ambient.

(** [document.getText(range)], recorded. *)
Definition document_getText (document : TextDocument) (r : Range)
  : Eff JsString :=
  do* emit (EvGetText r) in ret (getText document r).

(** [new RegExp(r).test(s)], recorded. *)
Definition regexp_test (r s : JsString) : Eff bool :=
  do* emit (EvRegExpTest r s) in lift (RegExp_test amb r s).

(** [console.error(message)] *)
Definition console_error (message : JsString) : Eff unit :=
  emit (EvConsoleError message).

Definition escapeTabStopSign (value : JsString) : JsString :=
  replace_g (fun c => (c =? DOLLAR)%N) [BACKSLASH; DOLLAR] [] value.

Definition isMarkdownStringSpec (x : Documentation) : bool :=
  match x with
  | DocString _ => false
  | DocSpec m => truthy (doc_kind m)
  end.

Definition formatDocumentation (documentation : Documentation)
  : FormattedDocumentation :=
  if isMarkdownStringSpec documentation then
    match documentation with
    | DocSpec m =>
        if eqb (doc_kind m) (lit "markdown") then
          FMarkdown (mkMarkdown (doc_value m))
        else FText (doc_value m)
    | DocString s => FText s
    end
  else
    match documentation with
    | DocString s => FText s
    | DocSpec m => FSpec m
    end.

Definition getMaxResults : Z :=
  if isCapabilityEnabled amb SUGGESTIONS_SINGLE then 1
  else if isCapabilityEnabled amb SUGGESTIONS_TWO then 2
  else MAX_NUM_RESULTS amb.

(** The loop over [disable_line_regex]: [line] is the cached slice;
    [Some v] is a [return v] from inside the loop. *)
Fixpoint line_regex_loop (document : TextDocument) (position : Position)
    (rs : list JsString) (line : option JsString) : Eff (option bool) :=
  match rs with
  | [] => ret None
  | r :: rest =>
      let* line :=
        match line with
        | None =>
            document_getText document
              (new_Range (with_character position 0)
                         (with_character position 500))
        | Some l => ret l
        end in
      let* matched := regexp_test r line in
      if matched then ret (Some false)
      else line_regex_loop document position rest (Some line)
  end.

(** The loop over [disable_file_regex]. *)
Fixpoint file_regex_loop (document : TextDocument) (rs : list JsString)
  : Eff (option bool) :=
  match rs with
  | [] => ret None
  | r :: rest =>
      let* matched := regexp_test r (fileName document) in
      if matched then ret (Some false)
      else file_regex_loop document rest
  end.

Definition completionIsAllowed (document : TextDocument)
    (position : Position) : Eff bool :=
  let disable_line_regex :=
    default [] (configuration amb !! "tabnine.disable_line_regex"%string) in
  let* returned :=
    line_regex_loop document position disable_line_regex None in
  match returned with
  | Some v => ret v
  | None =>
      let disable_file_regex :=
        default []
          (configuration amb !! "tabnine.disable_file_regex"%string) in
      let* returned := file_regex_loop document disable_file_regex in
      match returned with
      | Some v => ret v
      | None => ret true
      end
  end.

Definition showFew (response : AutocompleteResult)
    (document : TextDocument) (position : Position) : Eff bool :=
  if existsb (fun entry =>
                truthy_kind (kind entry)
                || truthy_documentation (documentation entry))
             (results response)
  then ret false
  else
    let* leftPoint :=
      lift (translate position 0
              (- Z.of_nat (length (old_prefix response)))) in
    let* lineStart := lift (lineAt_start document leftPoint) in
    let* tail := document_getText document (new_Range lineStart leftPoint) in
    ret (endsWith tail (lit ".") || endsWith tail (lit "::")).

Definition makeCompletionItem (document : TextDocument) (index : nat)
    (position : Position) (detailMessage : JsString)
    (old_prefix : JsString) (entry : ResultEntry)
    (results : list ResultEntry) : Eff CompletionItem :=
  let label :=
    (if isCapabilityEnabled amb ON_BOARDING_CAPABILITY
     then [10024; 32]%N else [])
    ++ new_prefix entry in
  let sortText := fromCharCode 0 ++ fromCharCode (N.of_nat index) in
  let insertText := new_SnippetString (escapeTabStopSign (new_prefix entry)) in
  let filterText := new_prefix entry in
  let preselect := (index =? 0)%nat in
  let kind := kind entry in
  let* range_start :=
    lift (translate position 0 (- Z.of_nat (length old_prefix))) in
  let* range_end :=
    lift (translate position 0 (Z.of_nat (length (old_suffix entry)))) in
  let range := new_Range range_start range_end in
  let command :=
    if isTabNineAutoImportEnabled amb then
      Some (mkCommand
              [mkArguments (new_prefix entry) results position]
              (COMPLETION_IMPORTS amb)
              (lit "accept completion"))
    else None in
  let insertText :=
    if truthy (new_suffix entry) then
      appendText (escapeTabStopSign (new_suffix entry))
                 (appendTabstop 0 insertText)
    else insertText in
  let documentation :=
    if truthy_documentation (documentation entry) then
      option_map formatDocumentation (documentation entry)
    else None in
  let detail :=
    if truthy_opt (detail entry)
       && (eqb detailMessage (DEFAULT_DETAIL amb)
           || includes detailMessage (lit "Your project contains"))
    then default [] (detail entry)
    else detailMessage in
  ret (mkItem label sortText insertText filterText preselect kind range
              command documentation detail).

(** The message built from [response.user_message]. *)
Definition detailMessage (user_message : option (list JsString))
  : JsString :=
  let detailMessage :=
    fold_left
      (fun detailMessage msg =>
         (if negb (eqb detailMessage [])
          then detailMessage ++ [LF] else detailMessage) ++ msg)
      (default [] user_message) [] in
  if eqb detailMessage [] then DEFAULT_DETAIL amb else detailMessage.

(** The loop over [response.results]; it stops once [index] reaches the
    limit. *)
Fixpoint items_loop (document : TextDocument) (position : Position)
    (detailMessage : JsString) (response : AutocompleteResult)
    (limit : option nat) (index : nat) (entries : list ResultEntry)
    (completionList : list CompletionItem) : Eff (list CompletionItem) :=
  match entries with
  | [] => ret completionList
  | entry :: rest =>
      let* item :=
        makeCompletionItem document index position detailMessage
          (old_prefix response) entry (results response) in
      let completionList := completionList ++ [item] in
      let index := (index + 1)%nat in
      if match limit with
         | Some limit => (limit <=? index)%nat
         | None => false
         end
      then ret completionList
      else items_loop document position detailMessage response limit
             index rest completionList
  end.

(** The request sent to the service for a cursor. *)
Definition request (document : TextDocument) (position : Position)
  : Eff AutocompleteParams :=
  let offset := offsetAt document position in
  let before_start_offset := Z.max 0 (offset - CHAR_LIMIT amb) in
  let after_end_offset := offset + CHAR_LIMIT amb in
  let before_start := positionAt document before_start_offset in
  let after_end := positionAt document after_end_offset in
  let* before := document_getText document (new_Range before_start position) in
  let* after := document_getText document (new_Range position after_end) in
  ret {| filename := fileName document;
         before := before;
         after := after;
         region_includes_beginning := (before_start_offset =? 0);
         region_includes_end :=
           negb (offsetAt document after_end =? after_end_offset);
         max_num_results := getMaxResults |}.

(** The value of [completionList] once a response is there. *)
Definition completionList (response : AutocompleteResult)
    (document : TextDocument) (position : Position)
  : Eff (list CompletionItem) :=
  if (length (results response) =? 0)%nat then ret []
  else
    let detailMessage := detailMessage (user_message response) in
    let* few := showFew response document position in
    let limit := if few then Some 1%nat else None in
    items_loop document position detailMessage response limit
      O (results response) [].

(** The body of the [try] block. *)
Definition provideCompletionItems_try (document : TextDocument)
    (position : Position) : Eff (option CompletionList) :=
  let* allowed := completionIsAllowed document position in
  if negb allowed then ret None
  else
    let* params := request document position in
    let* response :=
      do* emit (EvAutocomplete params) in lift (autocomplete amb params) in
    match response with
    | None => ret None
    | Some response =>
        let* completionList := completionList response document position in
        ret (Some (mkList completionList true))
    end.

Definition provideCompletionItems (document : TextDocument)
    (position : Position) (token : CancellationToken)
    (context : CompletionContext) : Eff (option CompletionList) :=
  try_catch (provideCompletionItems_try document position)
    (fun e =>
       do* console_error
             (lit "Error setting up request: " ++ error_toString e) in
       ret None).

End Provider.

(** ** A concrete setting: a small document, settings and service replies,
    used to run the provider. *)

Module Sample.

Definition alphanumeric (c : N) : bool :=
  ((48 <=? c) && (c <=? 57) || (65 <=? c) && (c <=? 90)
   || (97 <=? c) && (c <=? 122))%N.

(** The regular-expression engine on a fragment of its patterns: a
    pattern of letters and digits matches the subjects that contain it;
    the pattern of one opening parenthesis is malformed (an unterminated
    group) and throws a SyntaxError.  Other patterns are outside the
    fragment and are rejected as well. *)
Definition literal_RegExp_test (pattern subject : JsString)
  : Completion bool :=
  if forallb alphanumeric pattern then Normal (includes subject pattern)
  else
    Throw (mkError (lit "SyntaxError")
             (lit "Invalid regular expression: /" ++ pattern
                ++ lit "/: Unterminated group")).

Definition document : TextDocument :=
  mkDocument (lit "/src/main.ts")
             [lit "import x"; lit "let y = foo."; lit ""] EOL_LF.

Definition entry (prefix : string) : ResultEntry :=
  mkEntry (lit prefix) [] [] None None None.

Definition response : AutocompleteResult :=
  mkResult [] [entry "bar"; entry "baz"; entry "qux"] None.

Definition settings (line_regex file_regex : list JsString)
  : gmap string (list JsString) :=
  <["tabnine.disable_line_regex"%string := line_regex]>
    (<["tabnine.disable_file_regex"%string := file_regex]> ∅).

Definition ambient (line_regex file_regex : list JsString)
    (reply : Completion (option AutocompleteResult)) : Ambient :=
  mkAmbient (fun _ => false) false (settings line_regex file_regex)
            literal_RegExp_test (fun _ => reply)
            100000 (lit "tabnine") 5 (lit "tabnine-completion-imports").

Definition token : CancellationToken := mkToken false.
Definition context : CompletionContext := mkContext 0 None.

End Sample.

(** ** Vocabulary of the properties *)

(** The ordering key of the specification: the NUL character followed by
    the character whose code is the index. *)
Definition ordering_key (i : nat) : JsString := [0%N; N.of_nat i].

(** The advisory strings that remain once leading empty ones are gone. *)
Fixpoint drop_leading_empty (msgs : list JsString) : list JsString :=
  match msgs with
  | [] => []
  | m :: rest => if truthy m then m :: rest else drop_leading_empty rest
  end.

(** [s] occurs in [t]. *)
Definition occurs_in (s t : JsString) : Prop :=
  exists pre post, t = pre ++ s ++ post.

(** One round of the loop over [user_message]. *)
Definition add_message (detailMessage msg : JsString) : JsString :=
  (if negb (eqb detailMessage []) then detailMessage ++ [LF]
   else detailMessage) ++ msg.

(** The two configured lists of patterns, an absent list being empty. *)
Definition disable_line_regex (amb : Ambient) : list JsString :=
  default [] (configuration amb !! "tabnine.disable_line_regex"%string).

Definition disable_file_regex (amb : Ambient) : list JsString :=
  default [] (configuration amb !! "tabnine.disable_file_regex"%string).

(** The range read for the line slice, and the slice. *)
Definition slice_range (position : Position) : Range :=
  new_Range (with_character position 0) (with_character position 500).

Definition line_slice (document : TextDocument) (position : Position)
  : JsString :=
  getText document (slice_range position).

(** The patterns a loop evaluates: up to and including the first one that
    matches or throws. *)
Fixpoint evaluated (test : JsString -> Completion bool)
    (rs : list JsString) : list JsString :=
  match rs with
  | [] => []
  | r :: rest =>
      r :: match test r with
           | Normal false => evaluated test rest
           | _ => []
           end
  end.

(** How a loop over patterns ends: [Some false] on the first match, a
    throw on a malformed pattern met before, [None] when it runs out. *)
Fixpoint first_match (test : JsString -> Completion bool)
    (rs : list JsString) : Completion (option bool) :=
  match rs with
  | [] => Normal None
  | r :: rest =>
      match test r with
      | Normal true => Normal (Some false)
      | Normal false => first_match test rest
      | Throw e => Throw e
      end
  end.

(** The pattern can be tested against the subject without a throw. *)
Definition well_formed (amb : Ambient) (subject pattern : JsString) : bool :=
  match RegExp_test amb pattern subject with
  | Normal _ => true
  | Throw _ => false
  end.

(** Number of document reads in a trace. *)
Fixpoint count_getText (t : list Event) : nat :=
  match t with
  | [] => O
  | EvGetText _ :: t' => S (count_getText t')
  | _ :: t' => count_getText t'
  end.

(** The document read made for a non-empty list of line patterns. *)
Definition slice_reads (position : Position) (rs : list JsString)
  : list Event :=
  match rs with
  | [] => []
  | _ :: _ => [EvGetText (slice_range position)]
  end.

(** The request for a cursor, as a value: the text read from the clamped
    start offset to the cursor, the text from the cursor to the end
    offset, and the two flags. *)
Definition request_window (amb : Ambient) (document : TextDocument)
    (position : Position) : AutocompleteParams :=
  let offset := offsetAt document position in
  let before_start_offset := Z.max 0 (offset - CHAR_LIMIT amb) in
  let after_end_offset := offset + CHAR_LIMIT amb in
  {| filename := fileName document;
     before :=
       getText document
         (new_Range (positionAt document before_start_offset) position);
     after :=
       getText document
         (new_Range position (positionAt document after_end_offset));
     region_includes_beginning := (before_start_offset =? 0);
     region_includes_end :=
       negb (offsetAt document (positionAt document after_end_offset)
             =? after_end_offset);
     max_num_results := getMaxResults amb |}.

(** A candidate without kind, the kind [Text] of code 0 counting as
    none. *)
Definition lacks_kind (entry : ResultEntry) : Prop :=
  kind entry = None \/ kind entry = Some KText.

(** A candidate without documentation, the empty string counting as
    none. *)
Definition lacks_documentation (entry : ResultEntry) : Prop :=
  documentation entry = None \/ documentation entry = Some (DocString []).

Definition undecorated (entry : ResultEntry) : Prop :=
  lacks_kind entry /\ lacks_documentation entry.

(** The text of the cursor line from its start to the start of the
    replacement. *)
Definition preceding_text (document : TextDocument) (position : Position)
    (old_prefix : JsString) : JsString :=
  take (character position - length old_prefix)
       (lineText document (line position)).

(** The test made on each candidate by [showFew]. *)
Definition decorated_b (entry : ResultEntry) : bool :=
  truthy_kind (kind entry) || truthy_documentation (documentation entry).

(** Length of the first [n] lines, each with a line end of length [e]. *)
Definition prefix_length (e : nat) (ls : list JsString) (n : nat) : nat :=
  foldr (fun l acc => length l + e + acc)%nat O (take n ls).

(** Length of the whole text: the last line has no line end. *)
Definition text_length (e : nat) (ls : list JsString) : nat :=
  (prefix_length e ls (length ls) - e)%nat.

(** Undoing [escapeTabStopSign]: a backslash followed by a dollar sign
    stands for the dollar sign. *)
Fixpoint unescapeTabStopSign (s : JsString) : JsString :=
  match s with
  | [] => []
  | c :: rest =>
      match rest with
      | d :: rest' =>
          if (c =? BACKSLASH)%N && (d =? DOLLAR)%N
          then DOLLAR :: unescapeTabStopSign rest'
          else c :: unescapeTabStopSign rest
      | [] => [c]
      end
  end.

(** Number of dollar signs of a string. *)
Fixpoint count_dollar (s : JsString) : nat :=
  match s with
  | [] => O
  | c :: rest =>
      ((if (c =? DOLLAR)%N then 1 else 0) + count_dollar rest)%nat
  end.

(** The text of a documentation and of a formatted documentation. *)
Definition documentation_text (d : Documentation) : JsString :=
  match d with
  | DocString s => s
  | DocSpec m => doc_value m
  end.

Definition formatted_text (f : FormattedDocumentation) : JsString :=
  match f with
  | FText s => s
  | FMarkdown m => md_value m
  | FSpec m => doc_value m
  end.

(** Number of events of a trace that pass a test, and the tests for
    the calls of the service and of the console. *)
Fixpoint count_events (p : Event -> bool) (t : list Event) : nat :=
  match t with
  | [] => O
  | ev :: t' => ((if p ev then 1 else 0) + count_events p t')%nat
  end.

Definition is_autocomplete (ev : Event) : bool :=
  match ev with EvAutocomplete _ => true | _ => false end.

Definition is_console_error (ev : Event) : bool :=
  match ev with EvConsoleError _ => true | _ => false end.

(** A position that lies in the document. *)
Definition valid_position (document : TextDocument) (p : Position) : Prop :=
  (line p < length (lines document))%nat
  /\ (character p <= length (lineText document (line p)))%nat.

(** Whether [showFew] returns true. *)
Definition collapses (response : AutocompleteResult)
    (document : TextDocument) (position : Position) : bool :=
  match outcome (showFew response document position) with
  | Normal true => true
  | _ => false
  end.

(** Length of the text of a document. *)
Definition document_length (document : TextDocument) : nat :=
  text_length (length (eol_text (eol document))) (lines document).

(** The first position is not after the second one. *)
Definition not_after (a b : Position) : Prop :=
  (line a < line b)%nat
  \/ (line a = line b /\ (character a <= character b)%nat).

(** ** Strings *)

Section Strings.

Lemma eqb_eq (a b : JsString) : eqb a b = true <-> a = b.
Proof.
  revert b. induction a as [|x a IH]; intros [|y b]; simpl;
    try (split; [discriminate | discriminate]); try tauto.
  rewrite andb_true_iff, N.eqb_eq, IH. split.
  - intros [-> ->]. reflexivity.
  - intros H. injection H as -> ->. auto.
Qed.

Lemma eqb_refl (a : JsString) : eqb a a = true.
Proof. apply eqb_eq. reflexivity. Qed.

Lemma eqb_nil (a : JsString) : eqb a [] = negb (truthy a).
Proof. destruct a; reflexivity. Qed.

Lemma startsWith_spec (s p : JsString) :
  startsWith s p = true <-> exists t, s = p ++ t.
Proof.
  revert s. induction p as [|y p IH]; intros s; simpl.
  - split; [intros _; exists s; reflexivity | destruct s; reflexivity].
  - destruct s as [|x s]; simpl.
    + split; [discriminate | intros [t Ht]; discriminate].
    + rewrite andb_true_iff, N.eqb_eq, IH. split.
      * intros [-> [t ->]]. eauto.
      * intros [t Ht]. injection Ht as -> ->. eauto.
Qed.

Lemma endsWith_spec (s p : JsString) :
  endsWith s p = true <-> exists t, s = t ++ p.
Proof.
  unfold endsWith. rewrite startsWith_spec. split.
  - intros [t Ht]. exists (rev t).
    apply (f_equal (@rev N)) in Ht.
    rewrite rev_involutive, rev_app_distr, rev_involutive in Ht. exact Ht.
  - intros [t ->]. exists (rev t). apply rev_app_distr.
Qed.

Lemma includes_spec (s p : JsString) :
  includes s p = true <-> exists pre post, s = pre ++ p ++ post.
Proof.
  induction s as [|x s IH].
  - simpl. rewrite orb_false_r, startsWith_spec. split.
    + intros [t Ht]. exists [], t. exact Ht.
    + intros (pre & post & H). destruct pre; simpl in H.
      * eauto.
      * discriminate.
  - cbn [includes]. rewrite orb_true_iff, startsWith_spec, IH. split.
    + intros [[t Ht] | (pre & post & ->)].
      * exists [], t. exact Ht.
      * exists (x :: pre), post. reflexivity.
    + intros (pre & post & H). destruct pre as [|y pre]; simpl in H.
      * left. eauto.
      * right. injection H as -> ->. eauto.
Qed.

Lemma ltb_irrefl (a : JsString) : ltb a a = false.
Proof.
  induction a as [|x a IH]; simpl; [reflexivity|].
  rewrite N.ltb_irrefl, N.eqb_refl, IH. reflexivity.
Qed.

(** Expanding the template of [escapeTabStopSign]: the trailing dollar
    sign stands for itself. *)
Lemma GetSubstitution_backslash_dollar (matched before after : JsString) :
  GetSubstitution matched before after [BACKSLASH; DOLLAR]
  = [BACKSLASH; DOLLAR].
Proof. reflexivity. Qed.

(** Expanding the template of [SnippetString._escape]. *)
Lemma GetSubstitution_backslash_match (matched before after : JsString) :
  GetSubstitution matched before after [BACKSLASH; DOLLAR; AMPERSAND]
  = BACKSLASH :: matched.
Proof. simpl. rewrite app_nil_r. reflexivity. Qed.

Lemma escapeTabStopSign_from (before value : JsString) :
  replace_g (fun c => (c =? DOLLAR)%N) [BACKSLASH; DOLLAR] before value
  = flat_map (fun c => if (c =? DOLLAR)%N then [BACKSLASH; DOLLAR]
                       else [c]) value.
Proof.
  revert before. induction value as [|x value IH]; intros before.
  - reflexivity.
  - cbn [replace_g flat_map]. rewrite GetSubstitution_backslash_dollar.
    destruct (x =? DOLLAR)%N; rewrite IH; reflexivity.
Qed.

Lemma flat_map_unchanged (f : N -> JsString) (s : JsString) :
  (forall c, In c s -> f c = [c]) -> flat_map f s = s.
Proof.
  induction s as [|x s IH]; intros H; simpl; [reflexivity|].
  rewrite (H x) by (left; reflexivity).
  rewrite IH by (intros c Hc; apply H; right; exact Hc). reflexivity.
Qed.

End Strings.

(** ** Positions and single items *)

Section Items.

Variable amb : Ambient.

Lemma translate_left (p : Position) (n : nat) :
  (n <= character p)%nat ->
  translate p 0 (- Z.of_nat n)
  = Normal (mkPosition (line p) (character p - n)).
Proof.
  intros Hn. unfold translate, new_Position.
  destruct (Z.ltb_spec (Z.of_nat (line p) + 0) 0) as [Hl|Hl]; [lia|].
  destruct (Z.ltb_spec (Z.of_nat (character p) + - Z.of_nat n) 0)
    as [Hc|Hc]; [lia|].
  f_equal. f_equal; lia.
Qed.

Lemma translate_left_throws (p : Position) (n : nat) :
  (character p < n)%nat ->
  translate p 0 (- Z.of_nat n)
  = Throw (illegalArgument "character must be non-negative").
Proof.
  intros Hn. unfold translate, new_Position.
  destruct (Z.ltb_spec (Z.of_nat (line p) + 0) 0) as [Hl|Hl]; [lia|].
  destruct (Z.ltb_spec (Z.of_nat (character p) + - Z.of_nat n) 0)
    as [Hc|Hc]; [reflexivity | lia].
Qed.

Lemma translate_right (p : Position) (n : nat) :
  translate p 0 (Z.of_nat n)
  = Normal (mkPosition (line p) (character p + n)).
Proof.
  unfold translate, new_Position.
  destruct (Z.ltb_spec (Z.of_nat (line p) + 0) 0) as [Hl|Hl]; [lia|].
  destruct (Z.ltb_spec (Z.of_nat (character p) + Z.of_nat n) 0)
    as [Hc|Hc]; [lia|].
  f_equal. f_equal; lia.
Qed.

(** The constructor keeps two ends on one line that are in order. *)
Lemma new_Range_ordered (l a b : nat) :
  (a <= b)%nat ->
  new_Range (mkPosition l a) (mkPosition l b)
  = mkRange (mkPosition l a) (mkPosition l b).
Proof.
  intros Hab. unfold new_Range, isBefore. simpl.
  rewrite Nat.ltb_irrefl, Nat.eqb_refl. simpl.
  destruct (Nat.ltb_spec a b) as [H|H]; [reflexivity|].
  replace b with a by lia. reflexivity.
Qed.

(** The item built for one entry, property by property, when the prefix
    being replaced fits on the line before the cursor. *)
Lemma makeCompletionItem_fields (document : TextDocument) (index : nat)
    (position : Position) (message old_prefix : JsString)
    (entry : ResultEntry) (results : list ResultEntry) :
  (length old_prefix <= character position)%nat ->
  exists item,
    makeCompletionItem amb document index position message old_prefix
      entry results = (Normal item, [])
    /\ label item
       = (if isCapabilityEnabled amb ON_BOARDING_CAPABILITY
          then [10024; 32]%N else []) ++ new_prefix entry
    /\ sortText item = fromCharCode 0 ++ fromCharCode (N.of_nat index)
    /\ insertText item
       = (if truthy (new_suffix entry)
          then appendText (escapeTabStopSign (new_suffix entry))
                 (appendTabstop 0
                    (new_SnippetString
                       (escapeTabStopSign (new_prefix entry))))
          else new_SnippetString (escapeTabStopSign (new_prefix entry)))
    /\ filterText item = new_prefix entry
    /\ preselect item = (index =? 0)%nat
    /\ range item
       = mkRange
           (mkPosition (line position)
              (character position - length old_prefix))
           (mkPosition (line position)
              (character position + length (old_suffix entry)))
    /\ item_detail item
       = (if truthy_opt (detail entry)
             && (eqb message (DEFAULT_DETAIL amb)
                 || includes message (lit "Your project contains"))
          then default [] (detail entry) else message).
Proof.
  intros Hfit. unfold makeCompletionItem.
  rewrite (translate_left _ _ Hfit), translate_right.
  cbv [lift bind ret]. cbv beta iota. rewrite new_Range_ordered by lia.
  eexists. split; [reflexivity|]. simpl. repeat split; reflexivity.
Qed.

(** Otherwise building the item throws. *)
Lemma makeCompletionItem_throws (document : TextDocument) (index : nat)
    (position : Position) (message old_prefix : JsString)
    (entry : ResultEntry) (results : list ResultEntry) :
  (character position < length old_prefix)%nat ->
  makeCompletionItem amb document index position message old_prefix
    entry results
  = (Throw (illegalArgument "character must be non-negative"), []).
Proof.
  intros Hfit. unfold makeCompletionItem.
  rewrite (translate_left_throws _ _ Hfit). reflexivity.
Qed.

End Items.

(** ** Result limit, escaping, ordering keys and documentation *)

Section Pure.

Variable amb : Ambient.

(** C8: the maximum-results function returns 1 when the single-result
    capability is enabled, 2 when the two-result capability is enabled
    and the single-result one is not, and the configured default
    maximum otherwise. *)
Theorem getMaxResults_policy :
  (isCapabilityEnabled amb SUGGESTIONS_SINGLE = true ->
   getMaxResults amb = 1)
  /\ (isCapabilityEnabled amb SUGGESTIONS_SINGLE = false ->
      isCapabilityEnabled amb SUGGESTIONS_TWO = true ->
      getMaxResults amb = 2)
  /\ (isCapabilityEnabled amb SUGGESTIONS_SINGLE = false ->
      isCapabilityEnabled amb SUGGESTIONS_TWO = false ->
      getMaxResults amb = MAX_NUM_RESULTS amb).
Proof.
  unfold getMaxResults. repeat split.
  - intros ->. reflexivity.
  - intros -> ->. reflexivity.
  - intros -> ->. reflexivity.
Qed.

Lemma getMaxResults_bound :
  getMaxResults amb <= Z.max 2 (MAX_NUM_RESULTS amb).
Proof.
  unfold getMaxResults.
  destruct (isCapabilityEnabled amb SUGGESTIONS_SINGLE); [lia|].
  destruct (isCapabilityEnabled amb SUGGESTIONS_TWO); lia.
Qed.

Lemma sortText_key (i : nat) :
  Z.of_nat i <= 65535 ->
  fromCharCode 0 ++ fromCharCode (N.of_nat i) = ordering_key i.
Proof.
  intros Hi. unfold fromCharCode, ordering_key. simpl.
  rewrite (N.mod_small (N.of_nat i)) by lia. reflexivity.
Qed.

Lemma ordering_key_lt (i j : nat) :
  (i < j)%nat -> ltb (ordering_key i) (ordering_key j) = true.
Proof.
  intros Hij. unfold ordering_key. simpl.
  destruct (N.ltb_spec (N.of_nat i) (N.of_nat j)) as [H|H];
    [reflexivity | lia].
Qed.

(** C5: for indices [i < j] up to the maximum result count, the key of
    the item at index [i] (NUL followed by the character of code [i])
    is strictly below the key of the item at index [j] in the
    code-unit order, so the keys are distinct and sort in response
    order.  The default maximum, a constant of [./consts], is taken to
    fit in one UTF-16 code unit. *)
Theorem sortText_strictly_increasing (document : TextDocument)
    (position : Position) (message old_prefix : JsString)
    (entry_i entry_j : ResultEntry) (results : list ResultEntry)
    (i j : nat) :
  MAX_NUM_RESULTS amb <= 65535 ->
  (length old_prefix <= character position)%nat ->
  (i < j)%nat ->
  Z.of_nat j <= getMaxResults amb ->
  exists item_i item_j,
    outcome (makeCompletionItem amb document i position message
               old_prefix entry_i results) = Normal item_i
    /\ outcome (makeCompletionItem amb document j position message
                  old_prefix entry_j results) = Normal item_j
    /\ sortText item_i = ordering_key i
    /\ sortText item_j = ordering_key j
    /\ ltb (sortText item_i) (sortText item_j) = true
    /\ sortText item_i <> sortText item_j.
Proof.
  intros Hmax Hfit Hij Hj.
  pose proof getMaxResults_bound as Hb.
  destruct (makeCompletionItem_fields amb document i position message
              old_prefix entry_i results Hfit)
    as (item_i & Hi & _ & Hsi & _).
  destruct (makeCompletionItem_fields amb document j position message
              old_prefix entry_j results Hfit)
    as (item_j & Hj' & _ & Hsj & _).
  exists item_i, item_j.
  rewrite Hi, Hj', Hsi, Hsj. simpl outcome.
  rewrite !sortText_key by lia.
  repeat split; try reflexivity.
  - apply ordering_key_lt. exact Hij.
  - intros Heq. pose proof (ordering_key_lt i j Hij) as Hlt.
    rewrite Heq, ltb_irrefl in Hlt. discriminate.
Qed.

(** C4: [escapeTabStopSign] replaces every dollar sign by a backslash
    and a dollar sign, maps [a$b$c] to [a\$b\$c], and leaves a string
    without dollar sign unchanged; the snippet body of an item is made
    of the new prefix escaped once and, when there is a new suffix, of
    the final tab stop and the suffix escaped once, handed to the
    snippet's own [appendText]. *)
Theorem escapeTabStopSign_escapes (text : JsString)
    (document : TextDocument) (index : nat) (position : Position)
    (message old_prefix : JsString) (entry : ResultEntry)
    (results : list ResultEntry) :
  (length old_prefix <= character position)%nat ->
  escapeTabStopSign text
  = flat_map (fun c => if (c =? DOLLAR)%N then [BACKSLASH; DOLLAR]
                       else [c]) text
  /\ escapeTabStopSign (lit "a$b$c") = lit "a\$b\$c"
  /\ (~ In DOLLAR text -> escapeTabStopSign text = text)
  /\ exists item,
       outcome (makeCompletionItem amb document index position message
                  old_prefix entry results) = Normal item
       /\ insertText item
          = (if truthy (new_suffix entry)
             then appendText (escapeTabStopSign (new_suffix entry))
                    (appendTabstop 0
                       (new_SnippetString
                          (escapeTabStopSign (new_prefix entry))))
             else new_SnippetString
                    (escapeTabStopSign (new_prefix entry)))
       /\ value (insertText item)
          = escapeTabStopSign (new_prefix entry)
            ++ (if truthy (new_suffix entry)
                then lit "$0"
                     ++ snippet_escape
                          (escapeTabStopSign (new_suffix entry))
                else []).
Proof.
  intros Hfit. split; [apply escapeTabStopSign_from|].
  split; [reflexivity|]. split.
  - intros Hno. unfold escapeTabStopSign. rewrite escapeTabStopSign_from.
    apply flat_map_unchanged. intros c Hc.
    destruct (N.eqb_spec c DOLLAR) as [->|]; [contradiction | reflexivity].
  - destruct (makeCompletionItem_fields amb document index position
                message old_prefix entry results Hfit)
      as (item & Hitem & _ & _ & Hins & _).
    exists item. rewrite Hitem, Hins. split; [reflexivity|].
    split; [reflexivity|].
    destruct (truthy (new_suffix entry));
      unfold appendText, appendTabstop, new_SnippetString; cbn [value].
    + rewrite <- !app_assoc. reflexivity.
    + rewrite app_nil_r. reflexivity.
Qed.

(** The function on every documentation value: a tagged documentation
    whose tag is [markdown] yields a markdown string of its value; one
    with any other non-empty tag yields its value as plain text; a bare
    string is passed through unchanged; a tagged documentation with the
    empty tag is not seen as tagged and is returned as it is.  The
    function is total: no case throws. *)
Lemma formatDocumentation_cases (m : MarkdownStringSpec)
    (s : JsString) :
  (doc_kind m = lit "markdown" ->
   formatDocumentation (DocSpec m) = FMarkdown (mkMarkdown (doc_value m)))
  /\ (doc_kind m <> lit "markdown" -> doc_kind m <> [] ->
      formatDocumentation (DocSpec m) = FText (doc_value m))
  /\ (doc_kind m = [] -> formatDocumentation (DocSpec m) = FSpec m)
  /\ formatDocumentation (DocString s) = FText s.
Proof.
  unfold formatDocumentation, isMarkdownStringSpec. repeat split.
  - intros ->. reflexivity.
  - intros Hmd Hne. destruct (doc_kind m) as [|c k] eqn:Hk;
      [contradiction|]. simpl truthy. cbv iota.
    destruct (eqb (c :: k) (lit "markdown")) eqn:He; [|reflexivity].
    apply eqb_eq in He. contradiction.
  - intros ->. reflexivity.
Qed.

End Pure.

(** ** The detail message *)

Section Detail.

Variable amb : Ambient.

Lemma fold_add_message_nonempty (msgs : list JsString) (acc : JsString) :
  acc <> [] ->
  fold_left add_message msgs acc
  = acc ++ flat_map (fun m => [LF] ++ m) msgs.
Proof.
  revert acc. induction msgs as [|m msgs IH]; intros acc Hacc; simpl.
  - rewrite app_nil_r. reflexivity.
  - assert (Hstep : add_message acc m = acc ++ LF :: m).
    { unfold add_message. destruct acc; [contradiction|].
      simpl. rewrite <- app_assoc. reflexivity. }
    rewrite Hstep, IH.
    + rewrite <- app_assoc. reflexivity.
    + destruct acc; [contradiction | discriminate].
Qed.

Lemma join_cons (sep m : JsString) (msgs : list JsString) :
  join sep (m :: msgs) = m ++ flat_map (fun x => sep ++ x) msgs.
Proof.
  revert m. induction msgs as [|m' msgs IH]; intros m.
  - simpl. rewrite app_nil_r. reflexivity.
  - change (join sep (m :: m' :: msgs))
      with (m ++ sep ++ join sep (m' :: msgs)).
    rewrite IH. simpl. rewrite <- !app_assoc. reflexivity.
Qed.

Lemma fold_add_message (msgs : list JsString) :
  fold_left add_message msgs []
  = join [LF] (drop_leading_empty msgs).
Proof.
  induction msgs as [|m msgs IH]; [reflexivity|].
  cbn [fold_left drop_leading_empty]. destruct m as [|c m].
  - exact IH.
  - cbn [truthy]. change (add_message [] (c :: m)) with (c :: m).
    rewrite fold_add_message_nonempty by discriminate.
    rewrite join_cons. reflexivity.
Qed.

Lemma drop_leading_empty_all_truthy (msgs : list JsString) :
  forallb truthy msgs = true -> drop_leading_empty msgs = msgs.
Proof.
  destruct msgs as [|m msgs]; [reflexivity|]. simpl.
  destruct (truthy m); [reflexivity | discriminate].
Qed.

(** With only non-empty advisory strings the message is their join. *)
Lemma detailMessage_nonempty_strings (m : JsString)
    (msgs : list JsString) :
  forallb truthy (m :: msgs) = true ->
  detailMessage amb (Some (m :: msgs)) = join [LF] (m :: msgs).
Proof.
  intros Hall. unfold detailMessage.
  change (fold_left _ (default [] (Some (m :: msgs))) [])
    with (fold_left add_message (m :: msgs) []).
  rewrite fold_add_message, drop_leading_empty_all_truthy by exact Hall.
  rewrite join_cons. simpl in Hall. destruct m; [discriminate|].
  reflexivity.
Qed.

(** C7 (amended): the aggregated message is the advisory strings of
    the envelope, leading empty ones dropped, joined in order with
    newlines ([a] and [b] give [a], newline, [b]), or the default
    string when that text is empty, in particular when there are no
    advisory strings.  The detail of an item is the candidate's own
    detail when that detail is non-empty and the aggregated message is
    the default string or contains [Your project contains], and the
    aggregated message otherwise. *)
Theorem detailMessage_and_item_detail
    (user_message : option (list JsString))
    (document : TextDocument) (index : nat) (position : Position)
    (message old_prefix : JsString) (entry : ResultEntry)
    (results : list ResultEntry) :
  (length old_prefix <= character position)%nat ->
  detailMessage amb user_message
  = (let joined :=
       join [LF] (drop_leading_empty (default [] user_message)) in
     if eqb joined [] then DEFAULT_DETAIL amb else joined)
  /\ detailMessage amb (Some [lit "a"; lit "b"])
     = lit "a" ++ [LF] ++ lit "b"
  /\ detailMessage amb None = DEFAULT_DETAIL amb
  /\ detailMessage amb (Some []) = DEFAULT_DETAIL amb
  /\ exists item,
       outcome (makeCompletionItem amb document index position message
                  old_prefix entry results) = Normal item
       /\ (forall own, detail entry = Some own -> own <> [] ->
           message = DEFAULT_DETAIL amb
           \/ occurs_in (lit "Your project contains") message ->
           item_detail item = own)
       /\ (~ (exists own, detail entry = Some own /\ own <> []
              /\ (message = DEFAULT_DETAIL amb
                  \/ occurs_in (lit "Your project contains") message)) ->
           item_detail item = message).
Proof.
  intros Hfit. split.
  { unfold detailMessage.
    change (fold_left _ (default [] user_message) [])
      with (fold_left add_message (default [] user_message) []).
    rewrite fold_add_message. reflexivity. }
  split; [reflexivity|]. split; [reflexivity|]. split; [reflexivity|].
  destruct (makeCompletionItem_fields amb document index position
              message old_prefix entry results Hfit)
    as (item & Hitem & _ & _ & _ & _ & _ & _ & Hdetail).
  exists item. rewrite Hitem. split; [reflexivity|].
  assert (Hcond :
    eqb message (DEFAULT_DETAIL amb)
    || includes message (lit "Your project contains") = true
    <-> message = DEFAULT_DETAIL amb
        \/ occurs_in (lit "Your project contains") message).
  { rewrite orb_true_iff, eqb_eq, includes_spec. reflexivity. }
  split.
  - intros own Hown Hne Hmsg. rewrite Hdetail, Hown.
    apply Hcond in Hmsg. rewrite Hmsg.
    destruct own; [contradiction | reflexivity].
  - intros Hnot. rewrite Hdetail.
    destruct (truthy_opt (detail entry)
              && (eqb message (DEFAULT_DETAIL amb)
                  || includes message (lit "Your project contains")))
      eqn:Hc; [|reflexivity].
    exfalso. apply Hnot. apply andb_true_iff in Hc as [Hown Hmsg].
    destruct (detail entry) as [own|]; [|discriminate].
    exists own. split; [reflexivity|]. split.
    + intros ->. discriminate.
    + apply Hcond. exact Hmsg.
Qed.

End Detail.

(** ** Laws of the effect monad *)

Lemma eff_eta {A : Type} (m : Eff A) : m = (outcome m, trace m).
Proof. destruct m; reflexivity. Qed.

Section Effects.

Context {A B : Type}.

Lemma outcome_bind (m : Eff A) (k : A -> Eff B) :
  outcome (bind m k)
  = match outcome m with
    | Normal a => outcome (k a)
    | Throw e => Throw e
    end.
Proof.
  destruct m as [[a|e] t]; simpl; [|reflexivity].
  destruct (k a); reflexivity.
Qed.

Lemma trace_bind (m : Eff A) (k : A -> Eff B) :
  trace (bind m k)
  = match outcome m with
    | Normal a => trace m ++ trace (k a)
    | Throw e => trace m
    end.
Proof.
  destruct m as [[a|e] t]; simpl; [|reflexivity].
  destruct (k a); reflexivity.
Qed.

Lemma bind_normal (m : Eff A) (k : A -> Eff B) (a : A) :
  outcome m = Normal a ->
  bind m k = (outcome (k a), trace m ++ trace (k a)).
Proof.
  intros H. rewrite (eff_eta (bind m k)), outcome_bind, trace_bind, H.
  reflexivity.
Qed.

Lemma bind_throw (m : Eff A) (k : A -> Eff B) (e : JsError) :
  outcome m = Throw e -> bind m k = (Throw e, trace m).
Proof.
  intros H. rewrite (eff_eta (bind m k)), outcome_bind, trace_bind, H.
  reflexivity.
Qed.

End Effects.

(** Runs the monad operations of a goal down to pairs. *)
Ltac run_eff :=
  unfold document_getText, regexp_test, console_error, emit, lift, ret,
    bind;
  cbv beta iota.

(** ** The suppression check *)

Section Suppression.

Variable amb : Ambient.

Lemma take_min_length {X} (n : nat) (l : list X) :
  take (Nat.min n (length l)) l = take n l.
Proof.
  destruct (Nat.le_ge_cases n (length l)) as [H|H].
  - rewrite Nat.min_l by exact H. reflexivity.
  - rewrite Nat.min_r by exact H.
    rewrite !take_ge by lia. reflexivity.
Qed.

Lemma validatePosition_inside (document : TextDocument) (l c : nat) :
  (l < length (lines document))%nat ->
  validatePosition document (mkPosition l c)
  = mkPosition l (Nat.min c (length (lineText document l))).
Proof.
  intros Hl. unfold validatePosition. cbn [line character].
  destruct (length (lines document)) as [|last] eqn:Hlen; [lia|].
  destruct (Nat.leb_spec (S last) l) as [H|H]; [lia | reflexivity].
Qed.

(** Reading columns [0 .. c] of a line of the document. *)
Lemma getText_line_prefix (document : TextDocument) (l c : nat) :
  (l < length (lines document))%nat ->
  getText document (mkRange (mkPosition l 0) (mkPosition l c))
  = take c (lineText document l).
Proof.
  intros Hl. unfold getText, validateRange. cbn [range_start range_end].
  rewrite !validatePosition_inside by exact Hl. cbn [line character].
  rewrite Nat.eqb_refl. unfold substring.
  rewrite Nat.min_0_l, Nat.sub_0_r, drop_0. apply take_min_length.
Qed.

(** The slice is the first 500 code units of the current line. *)
Lemma line_slice_spec (document : TextDocument) (position : Position) :
  (line position < length (lines document))%nat ->
  line_slice document position
  = take 500 (lineText document (line position)).
Proof.
  intros Hl. unfold line_slice, slice_range, with_character.
  rewrite new_Range_ordered by lia.
  apply getText_line_prefix. exact Hl.
Qed.

Lemma line_regex_loop_cached (document : TextDocument)
    (position : Position) (rs : list JsString) (l : JsString) :
  line_regex_loop amb document position rs (Some l)
  = (first_match (fun r => RegExp_test amb r l) rs,
     map (fun r => EvRegExpTest r l)
         (evaluated (fun r => RegExp_test amb r l) rs)).
Proof.
  induction rs as [|r rs IH]; [reflexivity|].
  cbn [line_regex_loop first_match evaluated map].
  run_eff.
  destruct (RegExp_test amb r l) as [[|]|e]; try reflexivity.
  rewrite IH. reflexivity.
Qed.

Lemma line_regex_loop_fresh (document : TextDocument)
    (position : Position) (r : JsString) (rs : list JsString) :
  let l := line_slice document position in
  line_regex_loop amb document position (r :: rs) None
  = (first_match (fun r => RegExp_test amb r l) (r :: rs),
     EvGetText (slice_range position)
     :: map (fun r => EvRegExpTest r l)
            (evaluated (fun r => RegExp_test amb r l) (r :: rs))).
Proof.
  intros l. cbn [line_regex_loop first_match evaluated map].
  run_eff. fold (slice_range position).
  fold (line_slice document position).
  fold l. destruct (RegExp_test amb r l) as [[|]|e]; try reflexivity.
  rewrite line_regex_loop_cached. reflexivity.
Qed.

Lemma file_regex_loop_spec (document : TextDocument)
    (rs : list JsString) :
  file_regex_loop amb document rs
  = (first_match (fun r => RegExp_test amb r (fileName document)) rs,
     map (fun r => EvRegExpTest r (fileName document))
         (evaluated (fun r => RegExp_test amb r (fileName document)) rs)).
Proof.
  induction rs as [|r rs IH]; [reflexivity|].
  cbn [file_regex_loop first_match evaluated map].
  run_eff.
  destruct (RegExp_test amb r (fileName document)) as [[|]|e];
    try reflexivity.
  rewrite IH. reflexivity.
Qed.

End Suppression.

Section SuppressionDecision.

Variable amb : Ambient.
Variable document : TextDocument.
Variable position : Position.

Let slice := line_slice document position.
Let path := fileName document.
Let line_test := fun r => RegExp_test amb r slice.
Let file_test := fun r => RegExp_test amb r path.

Lemma line_regex_loop_spec (rs : list JsString) :
  line_regex_loop amb document position rs None
  = (first_match line_test rs,
     slice_reads position rs
     ++ map (fun r => EvRegExpTest r slice) (evaluated line_test rs)).
Proof.
  destruct rs as [|r rs]; [reflexivity|].
  apply line_regex_loop_fresh.
Qed.

(** The check in closed form: its result and every call it makes. *)
Lemma completionIsAllowed_spec :
  let line_events :=
    slice_reads position (disable_line_regex amb)
    ++ map (fun r => EvRegExpTest r slice)
           (evaluated line_test (disable_line_regex amb)) in
  let file_events :=
    map (fun r => EvRegExpTest r path)
        (evaluated file_test (disable_file_regex amb)) in
  completionIsAllowed amb document position
  = match first_match line_test (disable_line_regex amb) with
    | Throw e => (Throw e, line_events)
    | Normal (Some v) => (Normal v, line_events)
    | Normal None =>
        match first_match file_test (disable_file_regex amb) with
        | Throw e => (Throw e, line_events ++ file_events)
        | Normal (Some v) => (Normal v, line_events ++ file_events)
        | Normal None => (Normal true, line_events ++ file_events)
        end
    end.
Proof.
  intros line_events file_events. unfold completionIsAllowed.
  fold (disable_line_regex amb). fold (disable_file_regex amb).
  rewrite line_regex_loop_spec, file_regex_loop_spec.
  fold path file_test line_events file_events.
  unfold bind, ret.
  destruct (first_match line_test (disable_line_regex amb))
    as [[v|]|e]; cbv beta iota.
  - rewrite app_nil_r. reflexivity.
  - destruct (first_match file_test (disable_file_regex amb))
      as [[v|]|e]; cbv beta iota; rewrite ?app_nil_r; reflexivity.
  - reflexivity.
Qed.

Lemma first_match_returns_false (test : JsString -> Completion bool)
    (rs : list JsString) (v : bool) :
  first_match test rs = Normal (Some v) -> v = false.
Proof.
  induction rs as [|r rs IH]; simpl; [discriminate|].
  destruct (test r) as [[|]|e]; try discriminate; [|exact IH].
  intros H. injection H as <-. reflexivity.
Qed.

Lemma first_match_some (test : JsString -> Completion bool)
    (rs : list JsString) :
  first_match test rs = Normal (Some false) ->
  exists r, In r rs /\ test r = Normal true.
Proof.
  induction rs as [|r rs IH]; simpl; [discriminate|].
  destruct (test r) as [[|]|e] eqn:Hr; try discriminate.
  - intros _. exists r. auto.
  - intros H. destruct (IH H) as (q & Hq & Ht). exists q. auto.
Qed.

Lemma first_match_none (test : JsString -> Completion bool)
    (rs : list JsString) :
  first_match test rs = Normal None ->
  forall r, In r rs -> test r = Normal false.
Proof.
  induction rs as [|r rs IH]; simpl; [contradiction|].
  destruct (test r) as [[|]|e] eqn:Hr; try discriminate.
  intros H q [<-|Hq]; [exact Hr | apply IH; assumption].
Qed.

Lemma first_match_total (subject : JsString) (rs : list JsString) :
  forallb (well_formed amb subject) rs = true ->
  exists v, first_match (fun r => RegExp_test amb r subject) rs = Normal v.
Proof.
  induction rs as [|r rs IH]; simpl; [eauto|].
  unfold well_formed at 1.
  destruct (RegExp_test amb r subject) as [[|]|e]; simpl;
    [eauto | exact IH | discriminate].
Qed.

(** Up to the first match every pattern is evaluated, after it none. *)
Lemma evaluated_first_match (test : JsString -> Completion bool)
    (pre post : list JsString) (r : JsString) :
  (forall q, In q pre -> test q = Normal false) ->
  test r = Normal true ->
  first_match test (pre ++ r :: post) = Normal (Some false)
  /\ evaluated test (pre ++ r :: post) = pre ++ [r].
Proof.
  intros Hpre Hr. induction pre as [|q pre IH]; simpl.
  - rewrite Hr. auto.
  - rewrite (Hpre q) by (left; reflexivity).
    destruct IH as [-> ->]; [|auto].
    intros q' Hq'. apply Hpre. right. exact Hq'.
Qed.

Lemma count_getText_app (t u : list Event) :
  count_getText (t ++ u) = (count_getText t + count_getText u)%nat.
Proof.
  induction t as [|ev t IH]; [reflexivity|].
  destruct ev; simpl; rewrite IH; reflexivity.
Qed.

Lemma count_getText_tests (subject : JsString) (rs : list JsString) :
  count_getText (map (fun r => EvRegExpTest r subject) rs) = O.
Proof. induction rs as [|r rs IH]; [reflexivity | exact IH]. Qed.

Lemma completionIsAllowed_trace :
  trace (completionIsAllowed amb document position)
  = slice_reads position (disable_line_regex amb)
    ++ map (fun r => EvRegExpTest r slice)
           (evaluated line_test (disable_line_regex amb))
    ++ match first_match line_test (disable_line_regex amb) with
       | Normal None =>
           map (fun r => EvRegExpTest r path)
               (evaluated file_test (disable_file_regex amb))
       | _ => []
       end.
Proof.
  rewrite completionIsAllowed_spec.
  destruct (first_match line_test (disable_line_regex amb))
    as [[v|]|e]; cbn [trace snd]; rewrite ?app_nil_r, <- ?app_assoc;
    try reflexivity.
  destruct (first_match file_test (disable_file_regex amb))
    as [[v|]|e]; reflexivity.
Qed.

Lemma completionIsAllowed_reads :
  count_getText (trace (completionIsAllowed amb document position))
  = match disable_line_regex amb with [] => O | _ :: _ => 1%nat end.
Proof.
  rewrite completionIsAllowed_trace, !count_getText_app.
  rewrite count_getText_tests.
  assert (Hfile :
    count_getText
      match first_match line_test (disable_line_regex amb) with
      | Normal None =>
          map (fun r => EvRegExpTest r path)
              (evaluated file_test (disable_file_regex amb))
      | _ => []
      end = O).
  { destruct (first_match line_test (disable_line_regex amb))
      as [[v|]|e]; try reflexivity. apply count_getText_tests. }
  rewrite Hfile. destruct (disable_line_regex amb); reflexivity.
Qed.

End SuppressionDecision.

Section SuppressionClaim.

Variable amb : Ambient.

(** C2 (amended): provided every configured pattern is a well-formed
    regular expression, the check returns false exactly when some line
    pattern matches the slice of the current line (its first 500 code
    units) or some file pattern matches the path, and true otherwise;
    an absent list counts as empty, and with both lists empty the check
    returns true without any call.  At the first matching line pattern
    the check returns false having evaluated the patterns up to that
    one only, and the slice is read at most once, never for an empty
    list of line patterns. *)
Theorem completionIsAllowed_decision (document : TextDocument)
    (position : Position) :
  forallb (well_formed amb (line_slice document position))
          (disable_line_regex amb) = true ->
  forallb (well_formed amb (fileName document))
          (disable_file_regex amb) = true ->
  (exists allowed,
     outcome (completionIsAllowed amb document position) = Normal allowed
     /\ (allowed = false <->
         (exists r, In r (disable_line_regex amb)
                    /\ RegExp_test amb r (line_slice document position)
                       = Normal true)
         \/ (exists r, In r (disable_file_regex amb)
                       /\ RegExp_test amb r (fileName document)
                          = Normal true)))
  /\ ((line position < length (lines document))%nat ->
      line_slice document position
      = take 500 (lineText document (line position)))
  /\ (configuration amb !! "tabnine.disable_line_regex"%string = None ->
      disable_line_regex amb = [])
  /\ (configuration amb !! "tabnine.disable_file_regex"%string = None ->
      disable_file_regex amb = [])
  /\ (disable_line_regex amb = [] -> disable_file_regex amb = [] ->
      completionIsAllowed amb document position = (Normal true, []))
  /\ (forall pre r post,
        disable_line_regex amb = pre ++ r :: post ->
        (forall q, In q pre ->
           RegExp_test amb q (line_slice document position)
           = Normal false) ->
        RegExp_test amb r (line_slice document position) = Normal true ->
        completionIsAllowed amb document position
        = (Normal false,
           EvGetText (slice_range position)
           :: map (fun q =>
                     EvRegExpTest q (line_slice document position))
                  (pre ++ [r])))
  /\ (count_getText (trace (completionIsAllowed amb document position))
      <= 1)%nat
  /\ (disable_line_regex amb = [] ->
      count_getText (trace (completionIsAllowed amb document position))
      = O).
Proof.
  intros Hline Hfile.
  pose proof (completionIsAllowed_spec amb document position) as Hspec.
  cbv zeta in Hspec.
  split.
  { destruct (first_match_total amb _ _ Hline) as [lv Hlv].
    destruct (first_match_total amb _ _ Hfile) as [fv Hfv].
    rewrite Hlv, Hfv in Hspec. destruct lv as [v|].
    - pose proof (first_match_returns_false _ _ _ Hlv) as ->.
      exists false. rewrite Hspec. split; [reflexivity|].
      split; [intros _ | reflexivity].
      left. apply (first_match_some _ _ Hlv).
    - destruct fv as [v|].
      + pose proof (first_match_returns_false _ _ _ Hfv) as ->.
        exists false. rewrite Hspec. split; [reflexivity|].
        split; [intros _ | reflexivity].
        right. apply (first_match_some _ _ Hfv).
      + exists true. rewrite Hspec. split; [reflexivity|].
        split; [discriminate|].
        intros [(r & Hr & Ht) | (r & Hr & Ht)].
        * rewrite (first_match_none _ _ Hlv r Hr) in Ht. discriminate.
        * rewrite (first_match_none _ _ Hfv r Hr) in Ht. discriminate. }
  split; [apply line_slice_spec|].
  split; [intros H; unfold disable_line_regex; rewrite H; reflexivity|].
  split; [intros H; unfold disable_file_regex; rewrite H; reflexivity|].
  split.
  { intros Hl Hf. rewrite Hspec, Hl, Hf. reflexivity. }
  split.
  { intros pre r post Hl Hpre Hr. rewrite Hspec, Hl.
    destruct (evaluated_first_match
                (fun q => RegExp_test amb q (line_slice document position))
                pre post r Hpre Hr) as [-> ->].
    destruct pre; reflexivity. }
  rewrite completionIsAllowed_reads.
  split; [destruct (disable_line_regex amb); lia|].
  intros ->. reflexivity.
Qed.

End SuppressionClaim.

(** C2, as first stated, fails on a malformed pattern: with the line
    patterns [(] and [foo] and the cursor on a line containing [foo], a
    configured pattern matches the slice, yet the check does not return
    false: testing the first pattern throws. *)
Lemma completionIsAllowed_malformed_pattern :
  let amb := Sample.ambient [lit "("; lit "foo"] [] (Normal None) in
  let position := mkPosition 1 12 in
  ~ (outcome (completionIsAllowed amb Sample.document position)
     = Normal false
     <-> (exists r, In r (disable_line_regex amb)
                    /\ RegExp_test amb r
                         (line_slice Sample.document position)
                       = Normal true)
         \/ (exists r, In r (disable_file_regex amb)
                       /\ RegExp_test amb r (fileName Sample.document)
                          = Normal true)).
Proof.
  intros amb position [_ H].
  assert (Hthrow :
    exists e, outcome (completionIsAllowed amb Sample.document position)
              = Throw e).
  { eexists. vm_compute. reflexivity. }
  destruct Hthrow as [e He]. rewrite He in H.
  assert (Hfalse : @Throw bool e = Normal false); [|discriminate].
  apply H. left. exists (lit "foo"). split.
  - vm_compute. auto.
  - vm_compute. reflexivity.
Qed.

Lemma completionIsAllowed_decision_witness :
  let amb :=
    Sample.ambient [lit "bar"; lit "foo"] [lit "test"] (Normal None) in
  exists allowed,
    outcome (completionIsAllowed amb Sample.document (mkPosition 1 12))
    = Normal allowed.
Proof.
  intros amb.
  destruct (completionIsAllowed_decision amb Sample.document
              (mkPosition 1 12)) as [H _].
  - vm_compute. reflexivity.
  - vm_compute. reflexivity.
  - destruct H as [allowed [H _]]. exists allowed. exact H.
Defined.

(** ** The request window *)

Lemma request_spec (amb : Ambient) (document : TextDocument)
    (position : Position) :
  request amb document position
  = (Normal (request_window amb document position),
     [EvGetText
        (new_Range
           (positionAt document
              (Z.max 0 (offsetAt document position - CHAR_LIMIT amb)))
           position);
      EvGetText
        (new_Range position
           (positionAt document
              (offsetAt document position + CHAR_LIMIT amb)))]).
Proof. reflexivity. Qed.

(** ** The collapse heuristic *)

Section Collapse.

Lemma truthy_kind_false (k : option CompletionItemKind) :
  truthy_kind k = false <-> k = None \/ k = Some KText.
Proof.
  split.
  - destruct k as [[]|]; simpl; intros H; try discriminate; auto.
  - intros [-> | ->]; reflexivity.
Qed.

Lemma truthy_documentation_false (d : option Documentation) :
  truthy_documentation d = false
  <-> d = None \/ d = Some (DocString []).
Proof.
  split.
  - destruct d as [[[|c s]|m]|]; simpl; intros H; try discriminate; auto.
  - intros [-> | ->]; reflexivity.
Qed.

Lemma decorated_b_false (entry : ResultEntry) :
  decorated_b entry = false <-> undecorated entry.
Proof.
  unfold decorated_b, undecorated, lacks_kind, lacks_documentation.
  rewrite orb_false_iff, truthy_kind_false, truthy_documentation_false.
  reflexivity.
Qed.

Lemma existsb_decorated_false (entries : list ResultEntry) :
  existsb decorated_b entries = false <-> Forall undecorated entries.
Proof.
  induction entries as [|e entries IH]; simpl.
  - split; [constructor | reflexivity].
  - rewrite orb_false_iff, decorated_b_false, IH. split.
    + intros [He Hes]. constructor; assumption.
    + intros H. inversion H; subst. auto.
Qed.

Lemma showFew_decorated (response : AutocompleteResult)
    (document : TextDocument) (position : Position) :
  existsb decorated_b (results response) = true ->
  showFew response document position = (Normal false, []).
Proof.
  intros H. unfold showFew. fold decorated_b. rewrite H. reflexivity.
Qed.

Lemma showFew_undecorated (response : AutocompleteResult)
    (document : TextDocument) (position : Position) :
  existsb decorated_b (results response) = false ->
  (length (old_prefix response) <= character position)%nat ->
  (line position < length (lines document))%nat ->
  let tail := preceding_text document position (old_prefix response) in
  showFew response document position
  = (Normal (endsWith tail (lit ".") || endsWith tail (lit "::")),
     [EvGetText
        (mkRange (mkPosition (line position) 0)
           (mkPosition (line position)
              (character position - length (old_prefix response))))]).
Proof.
  intros H Hfit Hline tail. unfold showFew. fold decorated_b. rewrite H.
  rewrite (translate_left _ _ Hfit). unfold lift at 1.
  unfold bind at 1. cbv beta iota.
  unfold lineAt_start. cbn [line].
  destruct (Nat.ltb_spec (line position) (length (lines document)))
    as [_|Hge]; [|lia].
  run_eff.
  rewrite new_Range_ordered by lia.
  rewrite getText_line_prefix by exact Hline. reflexivity.
Qed.

Lemma showFew_prefix_too_long (response : AutocompleteResult)
    (document : TextDocument) (position : Position) :
  existsb decorated_b (results response) = false ->
  (character position < length (old_prefix response))%nat ->
  showFew response document position
  = (Throw (illegalArgument "character must be non-negative"), []).
Proof.
  intros H Hfit. unfold showFew. fold decorated_b. rewrite H.
  rewrite (translate_left_throws _ _ Hfit). reflexivity.
Qed.

Lemma showFew_line_outside (response : AutocompleteResult)
    (document : TextDocument) (position : Position) :
  existsb decorated_b (results response) = false ->
  (length (old_prefix response) <= character position)%nat ->
  (length (lines document) <= line position)%nat ->
  exists e, showFew response document position = (Throw e, []).
Proof.
  intros H Hfit Hline. unfold showFew. fold decorated_b. rewrite H.
  rewrite (translate_left _ _ Hfit). unfold lift at 1.
  unfold bind at 1. cbv beta iota.
  unfold lineAt_start. cbn [line].
  destruct (Nat.ltb_spec (line position) (length (lines document)))
    as [Hlt|_]; [lia|].
  eexists. reflexivity.
Qed.

End Collapse.

(** ** The loop over the candidates *)

Section Loop.

Variable amb : Ambient.
Variable document : TextDocument.
Variable position : Position.
Variable message : JsString.
Variable response : AutocompleteResult.

Let make (index : nat) (entry : ResultEntry) : Eff CompletionItem :=
  makeCompletionItem amb document index position message
    (old_prefix response) entry (results response).

(** Every list the loop returns extends the accumulator by items built,
    in order, from the leading entries. *)
Lemma items_loop_inv (limit : option nat) (entries : list ResultEntry) :
  forall (index : nat) (acc l : list CompletionItem),
    outcome (items_loop amb document position message response limit
               index entries acc) = Normal l ->
    exists new,
      l = acc ++ new
      /\ (length new <= length entries)%nat
      /\ forall k item,
           new !! k = Some item ->
           exists entry,
             entries !! k = Some entry
             /\ outcome (make (index + k) entry) = Normal item.
Proof.
  induction entries as [|entry rest IH]; intros index acc l.
  - simpl. intros H. injection H as <-. exists [].
    rewrite app_nil_r. repeat split; [simpl; lia|].
    intros k item Hk. discriminate.
  - cbn [items_loop]. rewrite outcome_bind. fold (make index entry).
    destruct (outcome (make index entry)) as [item|e] eqn:Hitem;
      [|discriminate].
    destruct (match limit with
              | Some limit => (limit <=? index + 1)%nat
              | None => false
              end).
    + simpl. intros H. injection H as <-. exists [item].
      repeat split; [simpl; lia|].
      intros [|k] item' Hk; [|discriminate].
      injection Hk as <-. exists entry.
      rewrite Nat.add_0_r. auto.
    + intros H. destruct (IH _ _ _ H) as (new & -> & Hlen & Hnew).
      exists (item :: new). rewrite <- app_assoc.
      repeat split; [simpl; lia|].
      intros [|k] item' Hk.
      * injection Hk as <-. exists entry. rewrite Nat.add_0_r. auto.
      * destruct (Hnew k item' Hk) as (entry' & He & Hm).
        exists entry'. split; [exact He|].
        replace (index + S k)%nat with (index + 1 + k)%nat by lia.
        exact Hm.
Qed.

(** Without a limit every entry yields an item. *)
Lemma items_loop_unlimited (entries : list ResultEntry) :
  forall (index : nat) (acc l : list CompletionItem),
    outcome (items_loop amb document position message response None
               index entries acc) = Normal l ->
    length l = (length acc + length entries)%nat.
Proof.
  induction entries as [|entry rest IH]; intros index acc l.
  - simpl. intros H. injection H as <-. lia.
  - cbn [items_loop]. rewrite outcome_bind. fold (make index entry).
    destruct (outcome (make index entry)) as [item|e]; [|discriminate].
    intros H. rewrite (IH _ _ _ H), length_app. simpl. lia.
Qed.

(** With the limit 1 the loop stops after the first entry. *)
Lemma items_loop_limit_one (entry : ResultEntry)
    (rest : list ResultEntry) :
  outcome (items_loop amb document position message response
             (Some 1%nat) O (entry :: rest) [])
  = match outcome (make O entry) with
    | Normal item => Normal [item]
    | Throw e => Throw e
    end.
Proof.
  cbn [items_loop]. rewrite outcome_bind. fold (make O entry).
  destruct (outcome (make O entry)); reflexivity.
Qed.

(** The loop returns, and makes no call, when the prefix being replaced
    fits before the cursor. *)
Lemma items_loop_returns (limit : option nat)
    (entries : list ResultEntry) :
  (length (old_prefix response) <= character position)%nat ->
  forall (index : nat) (acc : list CompletionItem),
    exists l,
      items_loop amb document position message response limit index
        entries acc = (Normal l, []).
Proof.
  intros Hfit. induction entries as [|entry rest IH]; intros index acc.
  - exists acc. reflexivity.
  - cbn [items_loop].
    destruct (makeCompletionItem_fields amb document index position
                message (old_prefix response) entry (results response)
                Hfit) as (item & -> & _).
    unfold bind. cbv beta iota.
    destruct (match limit with
              | Some limit => (limit <=? index + 1)%nat
              | None => false
              end).
    + eexists. reflexivity.
    + destruct (IH (index + 1)%nat (acc ++ [item])) as [l ->].
      exists l. reflexivity.
Qed.

(** It throws, whatever the entries, when the prefix does not fit. *)
Lemma items_loop_throws (limit : option nat) (entry : ResultEntry)
    (rest : list ResultEntry) (index : nat)
    (acc : list CompletionItem) :
  (character position < length (old_prefix response))%nat ->
  items_loop amb document position message response limit index
    (entry :: rest) acc
  = (Throw (illegalArgument "character must be non-negative"), []).
Proof.
  intros Hfit. cbn [items_loop].
  rewrite makeCompletionItem_throws by exact Hfit. reflexivity.
Qed.

End Loop.

(** ** The body of the provider *)

Section Body.

Variable amb : Ambient.
Variable document : TextDocument.
Variable position : Position.

Lemma provideCompletionItems_try_outcome :
  outcome (provideCompletionItems_try amb document position)
  = match outcome (completionIsAllowed amb document position) with
    | Throw e => Throw e
    | Normal false => Normal None
    | Normal true =>
        match autocomplete amb (request_window amb document position) with
        | Throw e => Throw e
        | Normal None => Normal None
        | Normal (Some response) =>
            match outcome (completionList amb response document position)
            with
            | Normal l => Normal (Some (mkList l true))
            | Throw e => Throw e
            end
        end
    end.
Proof.
  unfold provideCompletionItems_try. rewrite outcome_bind.
  destruct (outcome (completionIsAllowed amb document position))
    as [[|]|e]; try reflexivity.
  cbn [negb]. cbv iota. rewrite outcome_bind, request_spec.
  cbn [outcome fst]. rewrite !outcome_bind.
  unfold emit, lift. cbn [outcome fst].
  destruct (autocomplete amb (request_window amb document position))
    as [[response|]|e]; try reflexivity.
  rewrite outcome_bind.
  destruct (outcome (completionList amb response document position));
    reflexivity.
Qed.

(** The provider in closed form: the result of the [try] block, or no
    result and one more line on the console. *)
Lemma provideCompletionItems_spec (token : CancellationToken)
    (context : CompletionContext) :
  provideCompletionItems amb document position token context
  = match outcome (provideCompletionItems_try amb document position) with
    | Normal v =>
        (Normal v, trace (provideCompletionItems_try amb document position))
    | Throw e =>
        (Normal None,
         trace (provideCompletionItems_try amb document position)
         ++ [EvConsoleError
               (lit "Error setting up request: " ++ error_toString e)])
    end.
Proof.
  unfold provideCompletionItems.
  destruct (provideCompletionItems_try amb document position)
    as [[v|e] t]; reflexivity.
Qed.

End Body.

(** ** Properties of the provider *)

Section Claims.

Variable amb : Ambient.
Variable document : TextDocument.
Variable position : Position.

Lemma makeCompletionItem_inv (index : nat) (message old_prefix : JsString)
    (entry : ResultEntry) (results : list ResultEntry)
    (item : CompletionItem) :
  outcome (makeCompletionItem amb document index position message
             old_prefix entry results) = Normal item ->
  (length old_prefix <= character position)%nat.
Proof.
  intros H.
  destruct (le_lt_dec (length old_prefix) (character position))
    as [Hle|Hlt]; [exact Hle|].
  rewrite makeCompletionItem_throws in H by exact Hlt. discriminate.
Qed.

(** The items of [completionList] are built, in order, from the leading
    candidates of the response. *)
Lemma completionList_inv (response : AutocompleteResult)
    (l : list CompletionItem) :
  outcome (completionList amb response document position) = Normal l ->
  forall k item,
    l !! k = Some item ->
    exists entry,
      results response !! k = Some entry
      /\ outcome (makeCompletionItem amb document k position
                    (detailMessage amb (user_message response))
                    (old_prefix response) entry (results response))
         = Normal item.
Proof.
  unfold completionList.
  destruct (length (results response) =? 0)%nat.
  - simpl. intros H. injection H as <-. intros k item Hk. discriminate.
  - rewrite outcome_bind.
    destruct (outcome (showFew response document position)) as [few|e];
      [|discriminate].
    intros H k item Hk.
    destruct (items_loop_inv _ _ _ _ _ _ _ _ _ _ H)
      as (new & -> & _ & Hnew).
    exact (Hnew k item Hk).
Qed.

(** C3 (amended): [showFew] returns true exactly when every candidate
    lacks a kind (none, or the kind [Text] of code 0) and lacks
    documentation (none, or the empty string), and the text of the
    cursor line up to the start of the replacement (the cursor shifted
    left by the length of [old_prefix]) ends with a dot or with two
    colons; it returns false as soon as one candidate is not so,
    whatever the text.  When it returns true for a non-empty response,
    the list of the provider has exactly one item, preselected. *)
Theorem showFew_collapse (response : AutocompleteResult)
    (token : CancellationToken) (context : CompletionContext) :
  (outcome (showFew response document position) = Normal true <->
   Forall undecorated (results response)
   /\ (length (old_prefix response) <= character position)%nat
   /\ (line position < length (lines document))%nat
   /\ (endsWith (preceding_text document position (old_prefix response))
                (lit ".") = true
       \/ endsWith (preceding_text document position (old_prefix response))
                   (lit "::") = true))
  /\ ((exists entry, In entry (results response) /\ ~ undecorated entry) ->
      showFew response document position = (Normal false, []))
  /\ (outcome (showFew response document position) = Normal true ->
      results response <> [] ->
      outcome (completionIsAllowed amb document position) = Normal true ->
      autocomplete amb (request_window amb document position)
      = Normal (Some response) ->
      exists item,
        outcome (provideCompletionItems amb document position token
                   context)
        = Normal (Some (mkList [item] true))
        /\ preselect item = true).
Proof.
  assert (Hiff :
    outcome (showFew response document position) = Normal true <->
    Forall undecorated (results response)
    /\ (length (old_prefix response) <= character position)%nat
    /\ (line position < length (lines document))%nat
    /\ (endsWith (preceding_text document position (old_prefix response))
                 (lit ".") = true
        \/ endsWith (preceding_text document position
                       (old_prefix response)) (lit "::") = true)).
  { rewrite <- existsb_decorated_false.
    destruct (existsb decorated_b (results response)) eqn:Hdec.
    - rewrite showFew_decorated by exact Hdec. simpl.
      split; [discriminate | intros [H _]; discriminate].
    - destruct (le_lt_dec (length (old_prefix response))
                  (character position)) as [Hfit|Hfit].
      + destruct (le_lt_dec (length (lines document)) (line position))
          as [Hline|Hline].
        * destruct (showFew_line_outside response document position
                      Hdec Hfit Hline) as [e ->]. simpl.
          split; [discriminate | intros (_ & _ & H & _); lia].
        * rewrite (showFew_undecorated response document position
                     Hdec Hfit Hline). cbn [outcome fst].
          rewrite <- orb_true_iff. split.
          -- intros H. injection H as H. auto.
          -- intros (_ & _ & _ & ->). reflexivity.
      + rewrite showFew_prefix_too_long by assumption. simpl.
        split; [discriminate | intros (_ & H & _); lia]. }
  split; [exact Hiff|]. split.
  - intros (entry & Hin & Hdec). apply showFew_decorated.
    apply existsb_exists. exists entry. split; [exact Hin|].
    destruct (decorated_b entry) eqn:Hb; [reflexivity|].
    apply decorated_b_false in Hb. contradiction.
  - intros Hshow Hne Hallowed Hreply.
    pose proof Hshow as Hcond. apply Hiff in Hcond.
    destruct Hcond as (_ & Hfit & _).
    destruct (results response) as [|entry rest] eqn:Hres;
      [contradiction|].
    destruct (makeCompletionItem_fields amb document O position
                (detailMessage amb (user_message response))
                (old_prefix response) entry (results response) Hfit)
      as (item & Hitem & _ & _ & _ & _ & Hpre & _).
    exists item. split; [|exact Hpre].
    rewrite provideCompletionItems_spec,
      provideCompletionItems_try_outcome, Hallowed, Hreply.
    assert (Hlist :
      outcome (completionList amb response document position)
      = Normal [item]).
    { unfold completionList. rewrite Hres. cbn [length Nat.eqb].
      rewrite outcome_bind, Hshow, items_loop_limit_one.
      rewrite Hitem. reflexivity. }
    rewrite Hlist. reflexivity.
Qed.

End Claims.

(** C3, as first stated, fails for a candidate of kind [Text]: the
    candidate has a kind, the text before the cursor ends with a dot, and
    [showFew] returns true, not false. *)
Lemma showFew_ignores_text_kind :
  let response :=
    mkResult [] [mkEntry (lit "bar") [] [] (Some KText) None None] None in
  ~ ((exists entry, In entry (results response)
                    /\ (kind entry <> None \/ documentation entry <> None))
     -> outcome (showFew response Sample.document (mkPosition 1 12))
        = Normal false).
Proof.
  intros response H.
  assert (Htrue :
    outcome (showFew response Sample.document (mkPosition 1 12))
    = Normal true) by (vm_compute; reflexivity).
  rewrite Htrue in H.
  assert (Hfalse : @Normal bool true = Normal false); [|discriminate].
  apply H. eexists. split; [left; reflexivity|].
  left. discriminate.
Qed.

Lemma showFew_collapse_witness :
  exists item,
    outcome (provideCompletionItems
               (Sample.ambient [] [] (Normal (Some Sample.response)))
               Sample.document (mkPosition 1 12) Sample.token
               Sample.context)
    = Normal (Some (mkList [item] true))
    /\ preselect item = true.
Proof.
  apply (showFew_collapse
           (Sample.ambient [] [] (Normal (Some Sample.response)))
           Sample.document (mkPosition 1 12) Sample.response
           Sample.token Sample.context).
  - vm_compute. reflexivity.
  - discriminate.
  - vm_compute. reflexivity.
  - reflexivity.
Defined.

(** ** Offsets and positions *)

Section Offsets.

Lemma prefix_length_cons (e : nat) (l : JsString) (ls : list JsString)
    (n : nat) :
  prefix_length e (l :: ls) (S n)
  = (length l + e + prefix_length e ls n)%nat.
Proof. reflexivity. Qed.

Lemma prefix_length_line (e : nat) (ls : list JsString) :
  forall k,
    (k < length ls)%nat ->
    (prefix_length e ls k + length (default [] (ls !! k)) + e
     <= prefix_length e ls (length ls))%nat.
Proof.
  induction ls as [|l ls IH]; intros k Hk; [simpl in Hk; lia|].
  cbn [length]. rewrite prefix_length_cons. destruct k as [|k].
  - simpl. lia.
  - rewrite prefix_length_cons. simpl in Hk.
    specialize (IH k ltac:(lia)). simpl. simpl in IH. lia.
Qed.

Lemma text_length_cons (e : nat) (l l' : JsString)
    (ls : list JsString) :
  text_length e (l :: l' :: ls)
  = (length l + e + text_length e (l' :: ls))%nat.
Proof.
  unfold text_length. cbn [length]. rewrite !prefix_length_cons. lia.
Qed.

Lemma indexOf_next (e : nat) (l l' : JsString) (ls : list JsString)
    (idx sum : nat) :
  indexOf e (l :: l' :: ls) idx sum
  = if (sum <? length l + e)%nat then (idx, sum)
    else indexOf e (l' :: ls) (S idx) (sum - (length l + e)).
Proof. reflexivity. Qed.

(** The line and remainder found for an offset inside the text add up to
    the offset; with line ends of one code unit the remainder lies on
    the line. *)
Lemma indexOf_spec (e : nat) (ls : list JsString) :
  ls <> [] ->
  forall idx sum,
    (sum <= text_length e ls)%nat ->
    exists k r,
      indexOf e ls idx sum = ((idx + k)%nat, r)
      /\ (k < length ls)%nat
      /\ (prefix_length e ls k + r)%nat = sum
      /\ (e = 1%nat -> (r <= length (default [] (ls !! k)))%nat).
Proof.
  induction ls as [|l ls IH]; intros Hne idx sum Hsum; [contradiction|].
  destruct ls as [|l' ls].
  - exists O, sum. cbn [indexOf]. rewrite Nat.add_0_r.
    unfold text_length, prefix_length in Hsum. simpl in Hsum.
    repeat split; simpl; lia.
  - rewrite indexOf_next.
    destruct (Nat.ltb_spec sum (length l + e)) as [Hlt|Hge].
    + exists O, sum. rewrite Nat.add_0_r.
      repeat split; simpl; lia.
    + rewrite text_length_cons in Hsum.
      destruct (IH ltac:(discriminate) (S idx) (sum - (length l + e))%nat
                  ltac:(lia)) as (k & r & Hidx & Hk & Hadd & Hr).
      exists (S k), r. rewrite Hidx.
      split; [f_equal; lia|]. split; [simpl in *; lia|].
      split; [rewrite prefix_length_cons; lia|].
      exact Hr.
Qed.

Variable document : TextDocument.

Hypothesis lines_nonempty : lines document <> [].

Let e := length (eol_text (eol document)).

Lemma validatePosition_valid (p : Position) :
  (line (validatePosition document p) < length (lines document))%nat
  /\ (character (validatePosition document p)
      <= length (lineText document (line (validatePosition document p))))%nat.
Proof.
  unfold validatePosition.
  destruct (lines document) as [|l ls] eqn:Hls; [contradiction|].
  cbn [length].
  destruct (Nat.leb_spec (S (length ls)) (line p)) as [H|H];
    cbn [line character]; split; lia.
Qed.

Lemma offsetAt_bounds (p : Position) :
  0 <= offsetAt document p
  <= Z.of_nat (text_length e (lines document)).
Proof.
  unfold offsetAt, lineStart. fold e.
  fold (prefix_length e (lines document)
          (line (validatePosition document p))).
  destruct (validatePosition_valid p) as [Hl Hc].
  pose proof (prefix_length_line e (lines document) _ Hl) as Hlen.
  unfold lineText in Hc. unfold text_length. lia.
Qed.

(** In a document with line ends of one code unit, the position of an
    offset inside the text has that offset. *)
Lemma offsetAt_positionAt (offset : Z) :
  eol document = EOL_LF ->
  0 <= offset <= Z.of_nat (text_length e (lines document)) ->
  offsetAt document (positionAt document offset) = offset.
Proof.
  intros Hlf Hoff.
  assert (He : e = 1%nat) by (unfold e; rewrite Hlf; reflexivity).
  unfold positionAt. fold e.
  destruct (indexOf_spec e (lines document) lines_nonempty O
              (Z.to_nat (Z.max 0 offset)) ltac:(lia))
    as (k & r & Hidx & Hk & Hadd & Hr).
  rewrite Hidx. cbn [Nat.add]. specialize (Hr He).
  unfold offsetAt. rewrite validatePosition_inside by exact Hk.
  cbn [line character]. unfold lineStart. fold e.
  fold (prefix_length e (lines document) k).
  unfold lineText. lia.
Qed.

End Offsets.

Section RangeAndResult.

Variable amb : Ambient.
Variable document : TextDocument.
Variable position : Position.

(** The list is built whenever the cursor line is in the document and
    the prefix being replaced fits before the cursor. *)
Lemma completionList_returns (response : AutocompleteResult) :
  (length (old_prefix response) <= character position)%nat ->
  (line position < length (lines document))%nat ->
  exists l, outcome (completionList amb response document position)
            = Normal l.
Proof.
  intros Hfit Hline. unfold completionList.
  destruct (length (results response) =? 0)%nat; [eexists; reflexivity|].
  rewrite outcome_bind.
  destruct (existsb decorated_b (results response)) eqn:Hdec.
  - rewrite showFew_decorated by exact Hdec. cbn [outcome fst].
    destruct (items_loop_returns amb document position
                (detailMessage amb (user_message response)) response
                None (results response) Hfit O []) as [l ->].
    exists l. reflexivity.
  - rewrite (showFew_undecorated response document position Hdec Hfit
               Hline). cbn [outcome fst].
    match goal with
    | |- context [items_loop _ _ _ _ _ ?limit _ _ _] =>
        destruct (items_loop_returns amb document position
                    (detailMessage amb (user_message response)) response
                    limit (results response) Hfit O []) as [l ->]
    end.
    exists l. reflexivity.
Qed.

(** The request is sent once the check allows it. *)
Lemma provideCompletionItems_sends_request (token : CancellationToken)
    (context : CompletionContext) :
  outcome (completionIsAllowed amb document position) = Normal true ->
  In (EvAutocomplete (request_window amb document position))
     (trace (provideCompletionItems amb document position token context)).
Proof.
  intros Hallowed.
  assert (Htry :
    In (EvAutocomplete (request_window amb document position))
       (trace (provideCompletionItems_try amb document position))).
  { unfold provideCompletionItems_try.
    rewrite trace_bind, Hallowed. cbn [negb]. cbv iota.
    apply in_or_app. right.
    rewrite trace_bind, request_spec. cbn [outcome trace fst snd].
    apply in_or_app. right.
    rewrite trace_bind.
    assert (Hcall :
      In (EvAutocomplete (request_window amb document position))
         (trace (do* emit (EvAutocomplete
                             (request_window amb document position))
                 in lift
                      (autocomplete amb
                         (request_window amb document position))))).
    { rewrite trace_bind. unfold emit. cbn [outcome trace fst snd].
      left. reflexivity. }
    match goal with
    | |- In _ (match ?o with Normal _ => _ | Throw _ => _ end) =>
        destruct o
    end; [apply in_or_app; left|]; exact Hcall. }
  rewrite provideCompletionItems_spec.
  destruct (outcome (provideCompletionItems_try amb document position));
    cbn [trace snd]; [exact Htry|].
  apply in_or_app. left. exact Htry.
Qed.

(** C9: the replacement range of the item of a candidate starts at the
    cursor shifted left by the length of [old_prefix] and ends at the
    cursor shifted right by the length of the candidate's [old_suffix];
    all the items of a response share the left bound.  The text before
    the cursor is read from the offset [max(0, offset - CHAR_LIMIT)]
    (the position read from has that very offset in a document with
    one-unit line ends), and the flag saying that the window reaches the
    start of the document is true exactly when that offset is 0. *)
Theorem replacement_range_and_window (response : AutocompleteResult)
    (index : nat) (message : JsString) (entry : ResultEntry) :
  (length (old_prefix response) <= character position)%nat ->
  (exists item,
     outcome (makeCompletionItem amb document index position message
                (old_prefix response) entry (results response))
     = Normal item
     /\ range_start (range item)
        = mkPosition (line position)
            (character position - length (old_prefix response))
     /\ range_end (range item)
        = mkPosition (line position)
            (character position + length (old_suffix entry)))
  /\ (forall l,
        outcome (completionList amb response document position)
        = Normal l ->
        forall k item,
          l !! k = Some item ->
          range_start (range item)
          = mkPosition (line position)
              (character position - length (old_prefix response))
          /\ exists candidate,
               results response !! k = Some candidate
               /\ range_end (range item)
                  = mkPosition (line position)
                      (character position
                       + length (old_suffix candidate)))
  /\ outcome (request amb document position)
     = Normal (request_window amb document position)
  /\ before (request_window amb document position)
     = getText document
         (new_Range
            (positionAt document
               (Z.max 0 (offsetAt document position - CHAR_LIMIT amb)))
            position)
  /\ (region_includes_beginning (request_window amb document position)
      = true
      <-> Z.max 0 (offsetAt document position - CHAR_LIMIT amb) = 0)
  /\ (eol document = EOL_LF -> lines document <> [] ->
      0 <= CHAR_LIMIT amb ->
      offsetAt document
        (positionAt document
           (Z.max 0 (offsetAt document position - CHAR_LIMIT amb)))
      = Z.max 0 (offsetAt document position - CHAR_LIMIT amb)).
Proof.
  intros Hfit. split.
  { destruct (makeCompletionItem_fields amb document index position
                message (old_prefix response) entry (results response)
                Hfit) as (item & Hitem & _ & _ & _ & _ & _ & Hrange & _).
    exists item. rewrite Hitem, Hrange. repeat split. }
  split.
  { intros l Hl k item Hk.
    destruct (completionList_inv amb document position response l Hl
                k item Hk) as (candidate & Hcand & Hmake).
    destruct (makeCompletionItem_fields amb document k position
                (detailMessage amb (user_message response))
                (old_prefix response) candidate (results response) Hfit)
      as (item' & Hitem & _ & _ & _ & _ & _ & Hrange & _).
    rewrite Hitem in Hmake. injection Hmake as <-.
    rewrite Hrange. split; [reflexivity|].
    exists candidate. split; [exact Hcand | reflexivity]. }
  split; [rewrite request_spec; reflexivity|].
  split; [reflexivity|].
  split; [unfold request_window; cbn [region_includes_beginning];
          apply Z.eqb_eq|].
  intros Hlf Hlines Hlimit.
  pose proof (offsetAt_bounds document Hlines position) as Hb.
  apply offsetAt_positionAt; [exact Hlines | exact Hlf | lia].
Qed.

(** C10: a list returned by the provider is marked incomplete; with a
    response and no fault the provider returns such a list, the empty
    one for a response without candidates; it returns no result only
    when the check forbids completion, the response is absent, or a
    fault was caught.  The filter text of an item is the raw
    [new_prefix] of its candidate, whether or not the label carries
    the marker. *)
Theorem provideCompletionItems_result (token : CancellationToken)
    (context : CompletionContext) :
  (forall l,
     outcome (provideCompletionItems amb document position token context)
     = Normal (Some l) -> isIncomplete l = true)
  /\ (forall response v,
        outcome (completionIsAllowed amb document position)
        = Normal true ->
        autocomplete amb (request_window amb document position)
        = Normal (Some response) ->
        outcome (provideCompletionItems_try amb document position)
        = Normal v ->
        exists its,
          outcome (provideCompletionItems amb document position token
                     context)
          = Normal (Some (mkList its true)))
  /\ (forall response,
        outcome (completionIsAllowed amb document position)
        = Normal true ->
        autocomplete amb (request_window amb document position)
        = Normal (Some response) ->
        results response = [] ->
        outcome (provideCompletionItems amb document position token
                   context)
        = Normal (Some (mkList [] true)))
  /\ (outcome (provideCompletionItems amb document position token context)
      = Normal None ->
      outcome (completionIsAllowed amb document position) = Normal false
      \/ (outcome (completionIsAllowed amb document position)
          = Normal true
          /\ autocomplete amb (request_window amb document position)
             = Normal None)
      \/ exists e,
           outcome (provideCompletionItems_try amb document position)
           = Throw e)
  /\ (forall response l k item,
        autocomplete amb (request_window amb document position)
        = Normal (Some response) ->
        outcome (provideCompletionItems amb document position token
                   context)
        = Normal (Some l) ->
        items l !! k = Some item ->
        exists candidate,
          results response !! k = Some candidate
          /\ filterText item = new_prefix candidate
          /\ label item
             = (if isCapabilityEnabled amb ON_BOARDING_CAPABILITY
                then [10024; 32]%N else []) ++ new_prefix candidate).
Proof.
  pose proof (provideCompletionItems_spec amb document position token
                context) as Hspec.
  pose proof (provideCompletionItems_try_outcome amb document position)
    as Htry.
  split.
  { intros l Hl. rewrite Hspec in Hl.
    destruct (outcome (provideCompletionItems_try amb document position))
      as [v|e]; [|discriminate].
    cbn [outcome fst] in Hl. injection Hl as ->.
    destruct (outcome (completionIsAllowed amb document position))
      as [[|]|]; try discriminate.
    destruct (autocomplete amb (request_window amb document position))
      as [[response|]|]; try discriminate.
    destruct (outcome (completionList amb response document position));
      [|discriminate].
    injection Htry as ->. reflexivity. }
  split.
  { intros response v Hallowed Hreply Hv.
    rewrite Hspec, Hv. cbn [outcome fst].
    rewrite Htry, Hallowed, Hreply in Hv.
    destruct (outcome (completionList amb response document position))
      as [its|]; [|discriminate].
    injection Hv as <-. exists its. reflexivity. }
  split.
  { intros response Hallowed Hreply Hres.
    rewrite Hspec, Htry, Hallowed, Hreply.
    unfold completionList. rewrite Hres. reflexivity. }
  split.
  { intros Hnone. rewrite Hspec in Hnone.
    destruct (outcome (provideCompletionItems_try amb document position))
      as [v|e]; [|right; right; exists e; reflexivity].
    cbn [outcome fst] in Hnone. injection Hnone as ->.
    destruct (outcome (completionIsAllowed amb document position))
      as [[|]|]; try discriminate; [|left; reflexivity].
    right. left. split; [reflexivity|].
    destruct (autocomplete amb (request_window amb document position))
      as [[response|]|]; try discriminate; [|reflexivity].
    destruct (outcome (completionList amb response document position));
      discriminate. }
  intros response l k item Hreply Hl Hk. rewrite Hspec in Hl.
  destruct (outcome (provideCompletionItems_try amb document position))
    as [v|e]; [|discriminate].
  cbn [outcome fst] in Hl. injection Hl as ->.
  destruct (outcome (completionIsAllowed amb document position))
    as [[|]|]; try discriminate.
  rewrite Hreply in Htry.
  destruct (outcome (completionList amb response document position))
    as [its|] eqn:Hits; [|discriminate].
  injection Htry as ->. cbn [items] in Hk.
  destruct (completionList_inv amb document position response its Hits
              k item Hk) as (candidate & Hcand & Hmake).
  exists candidate. split; [exact Hcand|].
  pose proof (makeCompletionItem_inv amb document position _ _ _ _ _ _
                Hmake) as Hfit.
  destruct (makeCompletionItem_fields amb document k position
              (detailMessage amb (user_message response))
              (old_prefix response) candidate (results response) Hfit)
    as (item' & Hitem & Hlabel & _ & _ & Hfilter & _).
  rewrite Hitem in Hmake. injection Hmake as <-. auto.
Qed.

(** C1: the provider never throws.  Whatever the [try] block does, the
    provider completes normally: with the result of the block when the
    block returns, and with no result when the block throws, the error
    being written to the console. *)
Theorem provideCompletionItems_never_throws (token : CancellationToken)
    (context : CompletionContext) :
  exists result,
    outcome (provideCompletionItems amb document position token context)
    = Normal result
    /\ match outcome (provideCompletionItems_try amb document position)
       with
       | Normal v =>
           result = v
           /\ trace (provideCompletionItems amb document position token
                       context)
              = trace (provideCompletionItems_try amb document position)
       | Throw e =>
           result = None
           /\ trace (provideCompletionItems amb document position token
                       context)
              = trace (provideCompletionItems_try amb document position)
                ++ [EvConsoleError
                      (lit "Error setting up request: "
                       ++ error_toString e)]
       end.
Proof.
  rewrite provideCompletionItems_spec.
  destruct (outcome (provideCompletionItems_try amb document position))
    as [v|e]; eexists; repeat split.
Qed.

End RangeAndResult.

(** ** The provider at work on the sample document *)

Section Runs.

Let cursor := mkPosition 1 12.

(** A malformed pattern: the fault of the check is absorbed. *)
Example fault_in_check :
  provideCompletionItems
    (Sample.ambient [lit "("] [] (Normal (Some Sample.response)))
    Sample.document cursor Sample.token Sample.context
  = (Normal None,
     [EvGetText (slice_range cursor);
      EvRegExpTest (lit "(") (lit "let y = foo.");
      EvConsoleError
        (lit "Error setting up request: SyntaxError: Invalid regular expression: /(/: Unterminated group")]).
Proof. vm_compute. reflexivity. Qed.

(** A rejected request: the fault of the service is absorbed. *)
Example fault_in_service :
  outcome
    (provideCompletionItems
       (Sample.ambient [] []
          (Throw (mkError (lit "Error") (lit "process exited"))))
       Sample.document cursor Sample.token Sample.context)
  = Normal None.
Proof. vm_compute. reflexivity. Qed.

(** A prefix longer than the text before the cursor: the fault of the
    item construction is absorbed. *)
Example fault_in_synthesis :
  outcome
    (provideCompletionItems
       (Sample.ambient [] []
          (Normal (Some (mkResult (lit "let y = foo.bar")
                           [Sample.entry "baz"] None))))
       Sample.document cursor Sample.token Sample.context)
  = Normal None.
Proof. vm_compute. reflexivity. Qed.

(** A matching line pattern: nothing is sent to the service. *)
Example suppressed_by_line :
  provideCompletionItems
    (Sample.ambient [lit "foo"; lit "("] []
       (Normal (Some Sample.response)))
    Sample.document cursor Sample.token Sample.context
  = (Normal None,
     [EvGetText (slice_range cursor);
      EvRegExpTest (lit "foo") (lit "let y = foo.")]).
Proof. vm_compute. reflexivity. Qed.

(** Past 65535 the ordering key wraps around. *)
Example sortText_wraps :
  fromCharCode 0 ++ fromCharCode 65536 = fromCharCode 0 ++ fromCharCode 0.
Proof. reflexivity. Qed.

(** The snippet's own [appendText] escapes the escaped suffix again. *)
Example suffix_escaped_again :
  appendText (escapeTabStopSign (lit "$")) (new_SnippetString [])
  = mkSnippet (lit "\\\$").
Proof. reflexivity. Qed.

End Runs.

Lemma getMaxResults_policy_witness :
  getMaxResults (Sample.ambient [] [] (Normal None)) = 5.
Proof.
  destruct (getMaxResults_policy (Sample.ambient [] [] (Normal None)))
    as (_ & _ & H).
  apply H; reflexivity.
Defined.

Lemma sortText_strictly_increasing_witness :
  exists item_i item_j,
    outcome (makeCompletionItem (Sample.ambient [] [] (Normal None))
               Sample.document 0 (mkPosition 1 12) (lit "tabnine") []
               (Sample.entry "bar") []) = Normal item_i
    /\ outcome (makeCompletionItem (Sample.ambient [] [] (Normal None))
                  Sample.document 3 (mkPosition 1 12) (lit "tabnine") []
                  (Sample.entry "qux") []) = Normal item_j
    /\ ltb (sortText item_i) (sortText item_j) = true.
Proof.
  destruct (sortText_strictly_increasing
              (Sample.ambient [] [] (Normal None)) Sample.document
              (mkPosition 1 12) (lit "tabnine") []
              (Sample.entry "bar") (Sample.entry "qux") [] 0 3)
    as (item_i & item_j & Hi & Hj & _ & _ & Hlt & _).
  - simpl. lia.
  - simpl. lia.
  - lia.
  - change (3 <= 5). lia.
  - exists item_i, item_j. auto.
Defined.

Lemma escapeTabStopSign_escapes_witness :
  escapeTabStopSign (lit "price") = lit "price".
Proof.
  destruct (escapeTabStopSign_escapes
              (Sample.ambient [] [] (Normal None)) (lit "price")
              Sample.document 0 (mkPosition 1 12) (lit "tabnine") []
              (Sample.entry "bar") []) as (_ & _ & H & _).
  - simpl. lia.
  - apply H. vm_compute. intuition discriminate.
Defined.

(** C6, at the documentation with the empty tag and the value [text]:
    the tag is not [markdown], so the plain text [text] is expected; the
    type guard, which tests the tag for truthiness, does not see a tagged
    value, and the value returned is the tagged object itself, which is
    neither of the two results the function declares. *)
Theorem formatDocumentation_empty_tag :
  let m := mkSpec [] (lit "text") in
  doc_kind m <> lit "markdown"
  /\ isMarkdownStringSpec (DocSpec m) = false
  /\ formatDocumentation (DocSpec m) = FSpec m
  /\ formatDocumentation (DocSpec m) <> FText (doc_value m).
Proof.
  intros m. repeat split; discriminate.
Qed.

(** C7, as first stated, fails on a leading empty advisory string: the
    strings [""] and ["a"] joined with a newline give a newline and [a],
    but the message built is [a]. *)
Lemma detailMessage_skips_leading_empty :
  let amb := Sample.ambient [] [] (Normal None) in
  ~ (detailMessage amb (Some [[]; lit "a"]) = join [LF] [[]; lit "a"]).
Proof. intros amb. vm_compute. discriminate. Qed.

Lemma detailMessage_and_item_detail_witness :
  detailMessage (Sample.ambient [] [] (Normal None))
    (Some [lit "a"; lit "b"])
  = lit "a" ++ [LF] ++ lit "b".
Proof.
  destruct (detailMessage_and_item_detail
              (Sample.ambient [] [] (Normal None))
              (Some [lit "a"; lit "b"]) Sample.document 0
              (mkPosition 1 12) (lit "tabnine") [] (Sample.entry "bar") [])
    as (_ & H & _).
  - simpl. lia.
  - exact H.
Defined.

Lemma replacement_range_and_window_witness :
  exists item,
    outcome (makeCompletionItem (Sample.ambient [] [] (Normal None))
               Sample.document 0 (mkPosition 1 12) (lit "tabnine")
               (lit "fo") (mkEntry (lit "foo") (lit ".") [] None None None)
               [])
    = Normal item
    /\ range_start (range item) = mkPosition 1 10
    /\ range_end (range item) = mkPosition 1 13.
Proof.
  destruct (replacement_range_and_window
              (Sample.ambient [] [] (Normal None)) Sample.document
              (mkPosition 1 12) (mkResult (lit "fo") [] None) 0
              (lit "tabnine")
              (mkEntry (lit "foo") (lit ".") [] None None None))
    as [H _].
  - simpl. lia.
  - exact H.
Defined.

Lemma provideCompletionItems_result_witness :
  outcome (provideCompletionItems
             (Sample.ambient [] [] (Normal (Some (mkResult [] [] None))))
             Sample.document (mkPosition 1 12) Sample.token Sample.context)
  = Normal (Some (mkList [] true)).
Proof.
  destruct (provideCompletionItems_result
              (Sample.ambient [] [] (Normal (Some (mkResult [] [] None))))
              Sample.document (mkPosition 1 12) Sample.token Sample.context)
    as (_ & _ & H & _).
  apply (H (mkResult [] [] None)); reflexivity.
Defined.

(** ** Further properties: the items of a list *)

Section ItemValues.

Variable amb : Ambient.
Variable document : TextDocument.
Variable position : Position.

(** Building an item records no call, whether it returns or throws. *)
Lemma makeCompletionItem_trace (index : nat) (message old_prefix : JsString)
    (entry : ResultEntry) (results : list ResultEntry) :
  trace (makeCompletionItem amb document index position message old_prefix
           entry results) = [].
Proof.
  destruct (le_lt_dec (length old_prefix) (character position))
    as [Hfit|Hfit].
  - destruct (makeCompletionItem_fields amb document index position
                message old_prefix entry results Hfit) as (item & -> & _).
    reflexivity.
  - rewrite makeCompletionItem_throws by exact Hfit. reflexivity.
Qed.

(** The remaining properties of the item built for one entry. *)
Lemma makeCompletionItem_more_fields (index : nat)
    (message old_prefix : JsString) (entry : ResultEntry)
    (results : list ResultEntry) (item : CompletionItem) :
  outcome (makeCompletionItem amb document index position message
             old_prefix entry results) = Normal item ->
  item_kind item = kind entry
  /\ item_command item
     = (if isTabNineAutoImportEnabled amb
        then Some (mkCommand
                     [mkArguments (new_prefix entry) results position]
                     (COMPLETION_IMPORTS amb) (lit "accept completion"))
        else None)
  /\ item_documentation item
     = (if truthy_documentation (documentation entry)
        then option_map formatDocumentation (documentation entry)
        else None).
Proof.
  intros Hitem.
  pose proof (makeCompletionItem_inv amb document position _ _ _ _ _ _
                Hitem) as Hfit.
  revert Hitem. unfold makeCompletionItem.
  rewrite (translate_left _ _ Hfit), translate_right.
  cbv [lift bind ret]. cbv beta iota. cbn [outcome fst].
  intros H. injection H as <-. repeat split.
Qed.

End ItemValues.

Section ReturnedList.

Variable amb : Ambient.
Variable document : TextDocument.
Variable position : Position.
Variable token : CancellationToken.
Variable context : CompletionContext.
Variable response : AutocompleteResult.

Hypothesis reply :
  autocomplete amb (request_window amb document position)
  = Normal (Some response).

(** A list returned for the response is the value of [completionList]. *)
Lemma returned_list_inv (l : CompletionList) :
  outcome (provideCompletionItems amb document position token context)
  = Normal (Some l) ->
  outcome (completionIsAllowed amb document position) = Normal true
  /\ outcome (completionList amb response document position)
     = Normal (items l).
Proof.
  intros Hl. rewrite provideCompletionItems_spec in Hl.
  pose proof (provideCompletionItems_try_outcome amb document position)
    as Htry.
  destruct (outcome (provideCompletionItems_try amb document position))
    as [v|e]; [|discriminate].
  cbn [outcome fst] in Hl. injection Hl as ->.
  destruct (outcome (completionIsAllowed amb document position))
    as [[|]|]; try discriminate.
  rewrite reply in Htry.
  destruct (outcome (completionList amb response document position))
    as [its|]; [|discriminate].
  injection Htry as ->. auto.
Qed.

Lemma returned_item_inv (l : CompletionList) (k : nat)
    (item : CompletionItem) :
  outcome (provideCompletionItems amb document position token context)
  = Normal (Some l) ->
  items l !! k = Some item ->
  exists candidate,
    results response !! k = Some candidate
    /\ outcome (makeCompletionItem amb document k position
                  (detailMessage amb (user_message response))
                  (old_prefix response) candidate (results response))
       = Normal item.
Proof.
  intros Hl Hk. destruct (returned_list_inv l Hl) as [_ Hits].
  exact (completionList_inv amb document position response _ Hits k item Hk).
Qed.

(** X1: a returned list has as many items as the response has
    candidates, unless [showFew] returns true, in which case it has one
    item (none for an empty response); the list is not cut to the maximum
    that was requested. *)
Theorem returned_list_length (l : CompletionList) :
  outcome (provideCompletionItems amb document position token context)
  = Normal (Some l) ->
  length (items l)
  = (if collapses response document position
     then Nat.min 1 (length (results response))
     else length (results response)).
Proof.
  intros Hl. destruct (returned_list_inv l Hl) as [_ Hits].
  revert Hits. unfold completionList, collapses.
  destruct (results response) as [|entry rest] eqn:Hres.
  - simpl. intros H. injection H as <-.
    destruct (outcome (showFew response document position)) as [[|]|];
      reflexivity.
  - cbn [length Nat.eqb]. rewrite outcome_bind.
    destruct (outcome (showFew response document position))
      as [[|]|]; [| |discriminate].
    + rewrite items_loop_limit_one.
      destruct (outcome (makeCompletionItem amb document 0 position _ _
                           entry _)); [|discriminate].
      intros H. injection H as <-. reflexivity.
    + intros H. rewrite (items_loop_unlimited _ _ _ _ _ _ _ _ _ H).
      reflexivity.
Qed.

(** X2: in a returned list the first item is preselected and no other
    item is. *)
Theorem returned_list_preselect (l : CompletionList) (k : nat)
    (item : CompletionItem) :
  outcome (provideCompletionItems amb document position token context)
  = Normal (Some l) ->
  items l !! k = Some item ->
  (preselect item = true <-> k = O).
Proof.
  intros Hl Hk.
  destruct (returned_item_inv l k item Hl Hk) as (candidate & _ & Hmake).
  pose proof (makeCompletionItem_inv amb document position _ _ _ _ _ _
                Hmake) as Hfit.
  destruct (makeCompletionItem_fields amb document k position
              (detailMessage amb (user_message response))
              (old_prefix response) candidate (results response) Hfit)
    as (item' & Hitem & _ & _ & _ & _ & Hpre & _).
  rewrite Hitem in Hmake. injection Hmake as <-.
  rewrite Hpre. apply Nat.eqb_eq.
Qed.

(** X3: with automatic imports enabled every item of a returned list
    carries the command of the import handler, whose argument holds the
    [new_prefix] of the item's candidate, all the candidates of the
    response (also when the list was cut to one item) and the cursor;
    with automatic imports disabled no item carries a command. *)
Theorem returned_list_command (l : CompletionList) (k : nat)
    (item : CompletionItem) :
  outcome (provideCompletionItems amb document position token context)
  = Normal (Some l) ->
  items l !! k = Some item ->
  exists candidate,
    results response !! k = Some candidate
    /\ (isTabNineAutoImportEnabled amb = true ->
        item_command item
        = Some (mkCommand
                  [mkArguments (new_prefix candidate) (results response)
                     position]
                  (COMPLETION_IMPORTS amb) (lit "accept completion")))
    /\ (isTabNineAutoImportEnabled amb = false -> item_command item = None).
Proof.
  intros Hl Hk.
  destruct (returned_item_inv l k item Hl Hk) as (candidate & Hc & Hmake).
  exists candidate. split; [exact Hc|].
  destruct (makeCompletionItem_more_fields amb document position _ _ _ _ _
              _ Hmake) as (_ & Hcmd & _).
  rewrite Hcmd. split; intros ->; reflexivity.
Qed.

(** X4: every item of a returned list has the kind of its candidate,
    unchanged, and a documentation exactly when the candidate's
    documentation is neither absent nor the empty string, which is then
    the candidate's documentation formatted. *)
Theorem returned_list_kind_documentation (l : CompletionList) (k : nat)
    (item : CompletionItem) :
  outcome (provideCompletionItems amb document position token context)
  = Normal (Some l) ->
  items l !! k = Some item ->
  exists candidate,
    results response !! k = Some candidate
    /\ item_kind item = kind candidate
    /\ (item_documentation item = None <-> lacks_documentation candidate)
    /\ (forall d,
          documentation candidate = Some d ->
          d <> DocString [] ->
          item_documentation item = Some (formatDocumentation d)).
Proof.
  intros Hl Hk.
  destruct (returned_item_inv l k item Hl Hk) as (candidate & Hc & Hmake).
  exists candidate. split; [exact Hc|].
  destruct (makeCompletionItem_more_fields amb document position _ _ _ _ _
              _ Hmake) as (Hkind & _ & Hdoc).
  split; [exact Hkind|]. rewrite Hdoc. unfold lacks_documentation. split.
  - destruct (documentation candidate) as [[[|c s]|m]|]; simpl;
      split; intros H; try discriminate; auto;
      destruct H as [H|H]; discriminate.
  - intros d Hd Hne. rewrite Hd.
    destruct d as [[|c s]|m]; [contradiction | reflexivity | reflexivity].
Qed.

Lemma sortText_value (k : nat) (candidate : ResultEntry)
    (item : CompletionItem) :
  outcome (makeCompletionItem amb document k position
             (detailMessage amb (user_message response))
             (old_prefix response) candidate (results response))
  = Normal item ->
  sortText item = fromCharCode 0 ++ fromCharCode (N.of_nat k).
Proof.
  intros Hmake.
  pose proof (makeCompletionItem_inv amb document position _ _ _ _ _ _
                Hmake) as Hfit.
  destruct (makeCompletionItem_fields amb document k position
              (detailMessage amb (user_message response))
              (old_prefix response) candidate (results response) Hfit)
    as (item' & Hitem & _ & Hsort & _).
  rewrite Hitem in Hmake. injection Hmake as <-. exact Hsort.
Qed.

(** X5: when the response has at most 65536 candidates, whatever the
    maximum that was requested, the ordering keys of a returned list
    increase strictly along the list. *)
Theorem returned_list_sorted (l : CompletionList) (j k : nat)
    (item_j item_k : CompletionItem) :
  Z.of_nat (length (results response)) <= 65536 ->
  outcome (provideCompletionItems amb document position token context)
  = Normal (Some l) ->
  (j < k)%nat ->
  items l !! j = Some item_j ->
  items l !! k = Some item_k ->
  ltb (sortText item_j) (sortText item_k) = true.
Proof.
  intros Hmany Hl Hjk Hj Hk.
  destruct (returned_item_inv l j item_j Hl Hj) as (cj & _ & Hmj).
  destruct (returned_item_inv l k item_k Hl Hk) as (ck & Hck & Hmk).
  apply lookup_lt_Some in Hck.
  rewrite (sortText_value _ _ _ Hmj), (sortText_value _ _ _ Hmk).
  rewrite !sortText_key by lia. apply ordering_key_lt. exact Hjk.
Qed.

End ReturnedList.

(** ** Further properties: keys, escaping, messages and documentation *)

Section MoreItems.

Variable amb : Ambient.

Lemma ordering_key_eq (i j : nat) :
  fromCharCode 0 ++ fromCharCode (N.of_nat i)
  = fromCharCode 0 ++ fromCharCode (N.of_nat j)
  <-> (N.of_nat i mod 65536 = N.of_nat j mod 65536)%N.
Proof.
  unfold fromCharCode. simpl. split.
  - intros H. injection H as H. exact H.
  - intros ->. reflexivity.
Qed.

(** X6: the items of two indices have the same ordering key exactly when
    the indices are congruent modulo 65536, the number of UTF-16 code
    units: from the index 65536 on the keys repeat. *)
Theorem sortText_collision (document : TextDocument) (position : Position)
    (message old_prefix : JsString) (entry_i entry_j : ResultEntry)
    (results : list ResultEntry) (i j : nat) :
  (length old_prefix <= character position)%nat ->
  exists item_i item_j,
    outcome (makeCompletionItem amb document i position message
               old_prefix entry_i results) = Normal item_i
    /\ outcome (makeCompletionItem amb document j position message
                  old_prefix entry_j results) = Normal item_j
    /\ (sortText item_i = sortText item_j
        <-> (N.of_nat i mod 65536 = N.of_nat j mod 65536)%N).
Proof.
  intros Hfit.
  destruct (makeCompletionItem_fields amb document i position message
              old_prefix entry_i results Hfit)
    as (item_i & Hi & _ & Hsi & _).
  destruct (makeCompletionItem_fields amb document j position message
              old_prefix entry_j results Hfit)
    as (item_j & Hj & _ & Hsj & _).
  exists item_i, item_j. rewrite Hi, Hj, Hsi, Hsj.
  repeat split; apply ordering_key_eq.
Qed.

Lemma escapeTabStopSign_cons (c : N) (s : JsString) :
  escapeTabStopSign (c :: s)
  = if (c =? DOLLAR)%N then BACKSLASH :: DOLLAR :: escapeTabStopSign s
    else c :: escapeTabStopSign s.
Proof.
  unfold escapeTabStopSign. rewrite !escapeTabStopSign_from. simpl.
  destruct (c =? DOLLAR)%N; reflexivity.
Qed.

(** An escaped string does not begin with a dollar sign. *)
Lemma escapeTabStopSign_head (s rest : JsString) :
  escapeTabStopSign s <> DOLLAR :: rest.
Proof.
  destruct s as [|c s]; [discriminate|].
  rewrite escapeTabStopSign_cons.
  destruct (N.eqb_spec c DOLLAR) as [->|Hc]; [discriminate|].
  intros H. injection H as H _. contradiction.
Qed.

Lemma unescape_escape (s : JsString) :
  unescapeTabStopSign (escapeTabStopSign s) = s.
Proof.
  induction s as [|c s IH]; [reflexivity|].
  rewrite escapeTabStopSign_cons.
  destruct (N.eqb_spec c DOLLAR) as [->|Hc].
  - cbn [unescapeTabStopSign]. rewrite !N.eqb_refl. cbn [andb].
    rewrite IH. reflexivity.
  - cbn [unescapeTabStopSign].
    destruct (escapeTabStopSign s) as [|d rest] eqn:Hs.
    + destruct s as [|c' s']; [reflexivity|].
      rewrite escapeTabStopSign_cons in Hs.
      destruct (c' =? DOLLAR)%N; discriminate.
    + destruct (N.eqb_spec d DOLLAR) as [->|Hd].
      * exfalso. exact (escapeTabStopSign_head s rest Hs).
      * rewrite andb_false_r. rewrite IH. reflexivity.
Qed.

(** X7: [escapeTabStopSign] loses nothing: replacing every backslash
    followed by a dollar sign by the dollar sign gives the string back,
    so two different strings are never escaped to the same text. *)
Theorem escapeTabStopSign_injective (s t : JsString) :
  unescapeTabStopSign (escapeTabStopSign s) = s
  /\ (escapeTabStopSign s = escapeTabStopSign t -> s = t).
Proof.
  split; [apply unescape_escape|].
  intros H. rewrite <- (unescape_escape s), <- (unescape_escape t), H.
  reflexivity.
Qed.

Lemma escapeTabStopSign_length (s : JsString) :
  length (escapeTabStopSign s) = (length s + count_dollar s)%nat.
Proof.
  induction s as [|c s IH]; [reflexivity|].
  rewrite escapeTabStopSign_cons. cbn [count_dollar length].
  destruct (c =? DOLLAR)%N; cbn [length]; rewrite IH; lia.
Qed.

Lemma escapeTabStopSign_count (s : JsString) :
  count_dollar (escapeTabStopSign s) = count_dollar s.
Proof.
  induction s as [|c s IH]; [reflexivity|].
  rewrite escapeTabStopSign_cons.
  destruct (N.eqb_spec c DOLLAR) as [->|Hc].
  - cbn [count_dollar]. rewrite N.eqb_refl, IH. reflexivity.
  - cbn [count_dollar]. rewrite IH.
    destruct (N.eqb_spec c DOLLAR); [contradiction | reflexivity].
Qed.

Lemma count_dollar_zero (s : JsString) :
  count_dollar s = O <-> ~ In DOLLAR s.
Proof.
  induction s as [|c s IH]; simpl; [tauto|].
  destruct (N.eqb_spec c DOLLAR) as [->|Hc].
  - split; [discriminate | intros H; exfalso; apply H; left; reflexivity].
  - rewrite Nat.add_0_l, IH. split.
    + intros H [Hin|Hin]; [contradiction | apply H; exact Hin].
    + intros H Hin. apply H. right. exact Hin.
Qed.

(** X8: escaping lengthens a string by one code unit for each dollar
    sign, and escaping twice gives the same text as escaping once exactly
    for the strings without dollar sign: a string with a dollar sign is
    escaped further each time. *)
Theorem escapeTabStopSign_not_idempotent (s : JsString) :
  length (escapeTabStopSign s) = (length s + count_dollar s)%nat
  /\ (escapeTabStopSign (escapeTabStopSign s) = escapeTabStopSign s
      <-> ~ In DOLLAR s).
Proof.
  split; [apply escapeTabStopSign_length|]. split.
  - intros H. apply count_dollar_zero.
    apply (f_equal (@length N)) in H.
    rewrite !escapeTabStopSign_length, escapeTabStopSign_count in H. lia.
  - intros H.
    assert (Hs : escapeTabStopSign s = s).
    { unfold escapeTabStopSign. rewrite escapeTabStopSign_from.
      apply flat_map_unchanged. intros c Hc.
      destruct (N.eqb_spec c DOLLAR) as [->|]; [contradiction|reflexivity]. }
    rewrite !Hs. reflexivity.
Qed.

Lemma escapeTabStopSign_app (s t : JsString) :
  escapeTabStopSign (s ++ t) = escapeTabStopSign s ++ escapeTabStopSign t.
Proof.
  unfold escapeTabStopSign. rewrite !escapeTabStopSign_from.
  apply flat_map_app.
Qed.


End MoreItems.

Section MoreDetail.

Variable amb : Ambient.

Lemma detailMessage_closed (user_message : option (list JsString)) :
  detailMessage amb user_message
  = (if eqb (join [LF] (drop_leading_empty (default [] user_message))) []
     then DEFAULT_DETAIL amb
     else join [LF] (drop_leading_empty (default [] user_message))).
Proof.
  unfold detailMessage.
  change (fold_left _ (default [] user_message) [])
    with (fold_left add_message (default [] user_message) []).
  rewrite fold_add_message. reflexivity.
Qed.

Lemma detailMessage_truthy (user_message : option (list JsString)) :
  DEFAULT_DETAIL amb <> [] -> detailMessage amb user_message <> [].
Proof.
  intros Hdefault. rewrite detailMessage_closed.
  destruct (eqb (join [LF] (drop_leading_empty (default [] user_message)))
              []) eqn:He; [exact Hdefault|].
  intros H. rewrite H in He. discriminate.
Qed.

Lemma drop_leading_empty_all_empty (msgs : list JsString) :
  (forall m, In m msgs -> m = []) -> drop_leading_empty msgs = [].
Proof.
  induction msgs as [|m msgs IH]; intros H; [reflexivity|].
  simpl. rewrite (H m) by (left; reflexivity). simpl.
  apply IH. intros m' Hm'. apply H. right. exact Hm'.
Qed.

(** X11: when the first advisory string is non-empty the aggregated
    message is the join of all the advisory strings with newlines, later
    empty strings giving empty lines; when every advisory string is
    empty, or there is none, it is the default string. *)
Theorem detailMessage_first_string (user_message : option (list JsString)) :
  (forall m msgs,
     user_message = Some (m :: msgs) -> m <> [] ->
     detailMessage amb user_message = join [LF] (m :: msgs))
  /\ ((forall m, In m (default [] user_message) -> m = []) ->
      detailMessage amb user_message = DEFAULT_DETAIL amb).
Proof.
  split.
  - intros m msgs -> Hm. rewrite detailMessage_closed.
    change (default [] (Some (m :: msgs))) with (m :: msgs).
    destruct m as [|c m]; [contradiction|].
    cbn [drop_leading_empty truthy].
    rewrite join_cons. reflexivity.
  - intros Hall. rewrite detailMessage_closed.
    rewrite drop_leading_empty_all_empty by exact Hall. reflexivity.
Qed.

(** X17: formatting keeps the text of a documentation as it is, and the
    result is a markdown string exactly for a tagged documentation whose
    tag is [markdown]. *)
Theorem formatDocumentation_text (d : Documentation) :
  formatted_text (formatDocumentation d) = documentation_text d
  /\ ((exists md, formatDocumentation d = FMarkdown md)
      <-> exists m, d = DocSpec m /\ doc_kind m = lit "markdown").
Proof.
  unfold formatDocumentation, isMarkdownStringSpec.
  destruct d as [s|m].
  - split; [reflexivity|]. split.
    + intros [md H]. discriminate.
    + intros (m & H & _). discriminate.
  - destruct (eqb (doc_kind m) (lit "markdown")) eqn:He.
    + apply eqb_eq in He.
      assert (Ht : truthy (doc_kind m) = true) by (rewrite He; reflexivity).
      rewrite Ht. split; [reflexivity|]. split.
      * intros _. exists m. auto.
      * intros _. eexists. reflexivity.
    + assert (Hno : ~ exists m', DocSpec m = DocSpec m'
                                 /\ doc_kind m' = lit "markdown").
      { intros (m' & Hm' & Hk). injection Hm' as <-.
        apply eqb_eq in Hk. rewrite Hk in He. discriminate. }
      destruct (truthy (doc_kind m)); (split; [reflexivity|]); split;
        try (intros [md H]; discriminate);
        intros H; contradiction.
Qed.

End MoreDetail.

Section ReturnedDetail.

Variable amb : Ambient.
Variable document : TextDocument.
Variable position : Position.
Variable token : CancellationToken.
Variable context : CompletionContext.
Variable response : AutocompleteResult.

(** X10: provided the default detail is not the empty string, every item
    of a returned list has a non-empty detail: the candidate's own
    non-empty detail or the aggregated message, which is never empty. *)
Theorem returned_list_detail (l : CompletionList) (k : nat)
    (item : CompletionItem) :
  DEFAULT_DETAIL amb <> [] ->
  autocomplete amb (request_window amb document position)
  = Normal (Some response) ->
  outcome (provideCompletionItems amb document position token context)
  = Normal (Some l) ->
  items l !! k = Some item ->
  item_detail item <> [].
Proof.
  intros Hdefault Hreply Hl Hk.
  destruct (returned_item_inv amb document position token context response
              Hreply l k item Hl Hk) as (candidate & _ & Hmake).
  pose proof (makeCompletionItem_inv amb document position _ _ _ _ _ _
                Hmake) as Hfit.
  destruct (makeCompletionItem_fields amb document k position
              (detailMessage amb (user_message response))
              (old_prefix response) candidate (results response) Hfit)
    as (item' & Hitem & _ & _ & _ & _ & _ & _ & Hdetail).
  rewrite Hitem in Hmake. injection Hmake as <-. rewrite Hdetail.
  destruct (truthy_opt (detail candidate)) eqn:Hown; cbn [andb].
  - destruct (eqb _ _ || includes _ _).
    + destruct (detail candidate) as [[|c own]|]; discriminate.
    + apply detailMessage_truthy. exact Hdefault.
  - apply detailMessage_truthy. exact Hdefault.
Qed.

End ReturnedDetail.

(** ** Further properties: the suppression check on any patterns *)

Section MoreSuppression.

Variable amb : Ambient.
Variable document : TextDocument.
Variable position : Position.

(** A loop ends at the first pattern that matches or is malformed. *)
Lemma evaluated_decisive (test : JsString -> Completion bool)
    (pre post : list JsString) (r : JsString) :
  (forall q, In q pre -> test q = Normal false) ->
  test r <> Normal false ->
  first_match test (pre ++ r :: post)
  = match test r with
    | Normal _ => Normal (Some false)
    | Throw e => Throw e
    end
  /\ evaluated test (pre ++ r :: post) = pre ++ [r].
Proof.
  intros Hpre Hr. induction pre as [|q pre IH]; simpl.
  - destruct (test r) as [[|]|e]; try contradiction; auto.
  - rewrite (Hpre q) by (left; reflexivity).
    destruct IH as [-> ->]; [|auto].
    intros q' Hq'. apply Hpre. right. exact Hq'.
Qed.

Lemma evaluated_no_match (test : JsString -> Completion bool)
    (rs : list JsString) :
  (forall q, In q rs -> test q = Normal false) ->
  first_match test rs = Normal None /\ evaluated test rs = rs.
Proof.
  intros Hrs. induction rs as [|q rs IH]; simpl; [auto|].
  rewrite (Hrs q) by (left; reflexivity).
  destruct IH as [-> ->]; [|auto].
  intros q' Hq'. apply Hrs. right. exact Hq'.
Qed.

(** X12: the first line pattern that matches or is malformed decides the
    check, whatever comes after it: the check returns false on a match
    and throws the error of a malformed pattern, having read the slice
    once and tested the patterns up to that one, and no later line
    pattern and no file pattern is evaluated, well-formed or not. *)
Theorem completionIsAllowed_line_decisive (pre post : list JsString)
    (r : JsString) :
  disable_line_regex amb = pre ++ r :: post ->
  (forall q, In q pre ->
     RegExp_test amb q (line_slice document position) = Normal false) ->
  RegExp_test amb r (line_slice document position) <> Normal false ->
  completionIsAllowed amb document position
  = (match RegExp_test amb r (line_slice document position) with
     | Normal _ => Normal false
     | Throw e => Throw e
     end,
     EvGetText (slice_range position)
     :: map (fun q => EvRegExpTest q (line_slice document position))
            (pre ++ [r])).
Proof.
  intros Hl Hpre Hr.
  pose proof (completionIsAllowed_spec amb document position) as Hspec.
  cbv zeta in Hspec. rewrite Hspec, Hl.
  destruct (evaluated_decisive
              (fun q => RegExp_test amb q (line_slice document position))
              pre post r Hpre Hr) as [-> ->].
  destruct (RegExp_test amb r (line_slice document position)) as [b|e];
    destruct pre; reflexivity.
Qed.

(** X13: the file patterns are tested, against the path of the document,
    only once every line pattern has been tested without a match; the
    first file pattern that matches or is malformed then decides the
    check, and the file patterns after it are not evaluated. *)
Theorem completionIsAllowed_file_decisive (pre post : list JsString)
    (r : JsString) :
  (forall q, In q (disable_line_regex amb) ->
     RegExp_test amb q (line_slice document position) = Normal false) ->
  disable_file_regex amb = pre ++ r :: post ->
  (forall q, In q pre ->
     RegExp_test amb q (fileName document) = Normal false) ->
  RegExp_test amb r (fileName document) <> Normal false ->
  completionIsAllowed amb document position
  = (match RegExp_test amb r (fileName document) with
     | Normal _ => Normal false
     | Throw e => Throw e
     end,
     slice_reads position (disable_line_regex amb)
     ++ map (fun q => EvRegExpTest q (line_slice document position))
            (disable_line_regex amb)
     ++ map (fun q => EvRegExpTest q (fileName document)) (pre ++ [r])).
Proof.
  intros Hline Hf Hpre Hr.
  pose proof (completionIsAllowed_spec amb document position) as Hspec.
  cbv zeta in Hspec. rewrite Hspec, Hf.
  destruct (evaluated_no_match
              (fun q => RegExp_test amb q (line_slice document position))
              (disable_line_regex amb) Hline) as [-> ->].
  destruct (evaluated_decisive
              (fun q => RegExp_test amb q (fileName document))
              pre post r Hpre Hr) as [-> ->].
  rewrite <- app_assoc.
  destruct (RegExp_test amb r (fileName document)) as [b|e]; reflexivity.
Qed.

End MoreSuppression.

(** ** Further properties: the calls of the provider *)

Section Calls.

Variable amb : Ambient.
Variable document : TextDocument.
Variable position : Position.

Lemma count_events_app (p : Event -> bool) (t u : list Event) :
  count_events p (t ++ u) = (count_events p t + count_events p u)%nat.
Proof.
  induction t as [|ev t IH]; [reflexivity|].
  simpl. rewrite IH. lia.
Qed.

Lemma count_events_tests (p : Event -> bool) (subject : JsString)
    (rs : list JsString) :
  (forall r s, p (EvRegExpTest r s) = false) ->
  count_events p (map (fun r => EvRegExpTest r subject) rs) = O.
Proof.
  intros Hp. induction rs as [|r rs IH]; [reflexivity|].
  simpl. rewrite Hp, IH. reflexivity.
Qed.

(** The check only reads the document and tests patterns. *)
Lemma completionIsAllowed_calls (p : Event -> bool) :
  (forall r, p (EvGetText r) = false) ->
  (forall r s, p (EvRegExpTest r s) = false) ->
  count_events p (trace (completionIsAllowed amb document position)) = O.
Proof.
  intros Hread Htest. rewrite completionIsAllowed_trace.
  rewrite !count_events_app, count_events_tests by exact Htest.
  assert (Hslice :
    count_events p (slice_reads position (disable_line_regex amb)) = O).
  { destruct (disable_line_regex amb); simpl; [reflexivity|].
    rewrite Hread. reflexivity. }
  rewrite Hslice.
  destruct (first_match _ (disable_line_regex amb)) as [[v|]|e];
    try reflexivity.
  rewrite count_events_tests by exact Htest. reflexivity.
Qed.

Lemma showFew_calls (p : Event -> bool) (response : AutocompleteResult) :
  (forall r, p (EvGetText r) = false) ->
  count_events p (trace (showFew response document position)) = O.
Proof.
  intros Hread.
  destruct (existsb decorated_b (results response)) eqn:Hdec.
  - rewrite showFew_decorated by exact Hdec. reflexivity.
  - destruct (le_lt_dec (length (old_prefix response))
                (character position)) as [Hfit|Hfit].
    + destruct (le_lt_dec (length (lines document)) (line position))
        as [Hline|Hline].
      * destruct (showFew_line_outside response document position Hdec
                    Hfit Hline) as [e ->]. reflexivity.
      * rewrite (showFew_undecorated response document position Hdec
                   Hfit Hline). simpl. rewrite Hread. reflexivity.
    + rewrite showFew_prefix_too_long by assumption. reflexivity.
Qed.

Lemma items_loop_trace (message : JsString) (response : AutocompleteResult)
    (limit : option nat) (entries : list ResultEntry) :
  forall (index : nat) (acc : list CompletionItem),
    trace (items_loop amb document position message response limit index
             entries acc) = [].
Proof.
  induction entries as [|entry rest IH]; intros index acc; [reflexivity|].
  cbn [items_loop]. rewrite trace_bind, makeCompletionItem_trace.
  destruct (outcome (makeCompletionItem amb document index position
                       message (old_prefix response) entry
                       (results response))) as [item|e]; [|reflexivity].
  destruct (match limit with
            | Some limit => (limit <=? index + 1)%nat
            | None => false
            end); [reflexivity|].
  apply IH.
Qed.

Lemma completionList_calls (p : Event -> bool)
    (response : AutocompleteResult) :
  (forall r, p (EvGetText r) = false) ->
  count_events p (trace (completionList amb response document position))
  = O.
Proof.
  intros Hread. unfold completionList.
  destruct (length (results response) =? 0)%nat; [reflexivity|].
  rewrite trace_bind.
  pose proof (showFew_calls p response Hread) as Hshow.
  destruct (outcome (showFew response document position)) as [few|e];
    [|exact Hshow].
  rewrite count_events_app, Hshow, items_loop_trace. reflexivity.
Qed.

(** The calls of the [try] block: those of the check and, once it has
    returned true, the two reads of the window, the request and the
    calls made for the list. *)
Lemma provideCompletionItems_try_trace :
  trace (provideCompletionItems_try amb document position)
  = trace (completionIsAllowed amb document position)
    ++ match outcome (completionIsAllowed amb document position) with
       | Normal true =>
           trace (request amb document position)
           ++ EvAutocomplete (request_window amb document position)
              :: match autocomplete amb
                         (request_window amb document position) with
                 | Normal (Some response) =>
                     trace (completionList amb response document position)
                 | _ => []
                 end
       | _ => []
       end.
Proof.
  unfold provideCompletionItems_try. rewrite trace_bind.
  destruct (outcome (completionIsAllowed amb document position))
    as [[|]|e]; cbn [negb]; cbv iota;
    [|reflexivity|rewrite app_nil_r; reflexivity].
  f_equal. rewrite trace_bind.
  rewrite (request_spec amb document position) at 1.
  cbn [outcome fst]. f_equal.
  rewrite trace_bind, outcome_bind, trace_bind.
  unfold emit, lift. cbn [outcome trace fst snd].
  destruct (autocomplete amb (request_window amb document position))
    as [[response|]|e]; try reflexivity.
  cbn [app]. f_equal. rewrite trace_bind.
  destruct (outcome (completionList amb response document position));
    [apply app_nil_r | reflexivity].
Qed.

Lemma request_calls (p : Event -> bool) :
  (forall r, p (EvGetText r) = false) ->
  count_events p (trace (request amb document position)) = O.
Proof.
  intros Hread. rewrite request_spec. simpl. rewrite !Hread. reflexivity.
Qed.

Variable token : CancellationToken.
Variable context : CompletionContext.

(** X14: the provider sends one request to the service when the check
    returns true and none otherwise: a suppressed position, or a check
    that throws, never reaches the service, and no invocation asks the
    service twice. *)
Theorem provideCompletionItems_requests :
  count_events is_autocomplete
    (trace (provideCompletionItems amb document position token context))
  = match outcome (completionIsAllowed amb document position) with
    | Normal true => 1%nat
    | _ => O
    end.
Proof.
  assert (Htry :
    count_events is_autocomplete
      (trace (provideCompletionItems_try amb document position))
    = match outcome (completionIsAllowed amb document position) with
      | Normal true => 1%nat
      | _ => O
      end).
  { rewrite provideCompletionItems_try_trace, count_events_app.
    rewrite completionIsAllowed_calls by reflexivity.
    destruct (outcome (completionIsAllowed amb document position))
      as [[|]|e]; try reflexivity.
    rewrite count_events_app, request_calls by reflexivity.
    cbn [count_events is_autocomplete].
    destruct (autocomplete amb (request_window amb document position))
      as [[response|]|e]; try reflexivity.
    rewrite completionList_calls by reflexivity. reflexivity. }
  rewrite provideCompletionItems_spec.
  destruct (outcome (provideCompletionItems_try amb document position));
    cbn [trace snd]; [exact Htry|].
  rewrite count_events_app, Htry. simpl. lia.
Qed.

(** X15: the provider writes to the console once when the [try] block
    throws and never otherwise: suppression, an absent response and a
    returned list leave the console untouched. *)
Theorem provideCompletionItems_console :
  count_events is_console_error
    (trace (provideCompletionItems amb document position token context))
  = match outcome (provideCompletionItems_try amb document position) with
    | Normal _ => O
    | Throw _ => 1%nat
    end.
Proof.
  assert (Htry :
    count_events is_console_error
      (trace (provideCompletionItems_try amb document position)) = O).
  { rewrite provideCompletionItems_try_trace, count_events_app.
    rewrite completionIsAllowed_calls by reflexivity.
    destruct (outcome (completionIsAllowed amb document position))
      as [[|]|e]; try reflexivity.
    rewrite count_events_app, request_calls by reflexivity.
    cbn [count_events is_console_error].
    destruct (autocomplete amb (request_window amb document position))
      as [[response|]|e]; try reflexivity.
    rewrite completionList_calls by reflexivity. reflexivity. }
  rewrite provideCompletionItems_spec.
  destruct (outcome (provideCompletionItems_try amb document position));
    cbn [trace snd]; [exact Htry|].
  rewrite count_events_app, Htry. reflexivity.
Qed.

(** X16: when the response has candidates and its [old_prefix] is longer
    than the text before the cursor on its line, no item can be built:
    the provider returns no result and reports the illegal position on
    the console, whatever the candidates are. *)
Theorem provideCompletionItems_prefix_too_long
    (response : AutocompleteResult) :
  outcome (completionIsAllowed amb document position) = Normal true ->
  autocomplete amb (request_window amb document position)
  = Normal (Some response) ->
  results response <> [] ->
  (character position < length (old_prefix response))%nat ->
  provideCompletionItems amb document position token context
  = (Normal None,
     trace (provideCompletionItems_try amb document position)
     ++ [EvConsoleError
           (lit "Error setting up request: Error: Illegal argument: character must be non-negative")]).
Proof.
  intros Hallowed Hreply Hres Hlong.
  assert (Hlist :
    outcome (completionList amb response document position)
    = Throw (illegalArgument "character must be non-negative")).
  { unfold completionList.
    destruct (results response) as [|entry rest] eqn:Hr; [contradiction|].
    cbn [length Nat.eqb]. rewrite outcome_bind.
    destruct (existsb decorated_b (results response)) eqn:Hdec.
    - rewrite showFew_decorated by exact Hdec. cbn [outcome fst].
      rewrite items_loop_throws by exact Hlong. reflexivity.
    - rewrite showFew_prefix_too_long by assumption. reflexivity. }
  rewrite provideCompletionItems_spec, provideCompletionItems_try_outcome.
  rewrite Hallowed, Hreply, Hlist. reflexivity.
Qed.

End Calls.

(** ** Further properties: the window of the request *)

Section MoreOffsets.

Lemma prefix_length_S (e : nat) (ls : list JsString) :
  forall k,
    (k < length ls)%nat ->
    prefix_length e ls (S k)
    = (prefix_length e ls k + length (default [] (ls !! k)) + e)%nat.
Proof.
  induction ls as [|l ls IH]; intros k Hk; [simpl in Hk; lia|].
  destruct k as [|k].
  - unfold prefix_length. simpl. lia.
  - rewrite !prefix_length_cons. simpl in Hk.
    rewrite (IH k) by lia. simpl. lia.
Qed.

Lemma prefix_length_mono (e : nat) (ls : list JsString) (k k' : nat) :
  (k <= k')%nat -> (prefix_length e ls k <= prefix_length e ls k')%nat.
Proof.
  revert k k'. induction ls as [|l ls IH]; intros k k' Hk.
  - unfold prefix_length. rewrite !take_nil. lia.
  - destruct k as [|k]; [unfold prefix_length; simpl; lia|].
    destruct k' as [|k']; [lia|].
    rewrite !prefix_length_cons. specialize (IH k k' ltac:(lia)). lia.
Qed.

(** An offset past the end falls on the last line, at or after its end. *)
Lemma indexOf_past (e : nat) (ls : list JsString) :
  ls <> [] ->
  forall idx sum,
    (text_length e ls < sum)%nat ->
    exists r,
      indexOf e ls idx sum = ((idx + (length ls - 1))%nat, r)
      /\ (length (default [] (ls !! (length ls - 1)%nat)) <= r)%nat.
Proof.
  induction ls as [|l ls IH]; intros Hne idx sum Hsum; [contradiction|].
  destruct ls as [|l' ls].
  - exists sum. cbn [indexOf length]. rewrite Nat.add_0_r.
    unfold text_length, prefix_length in Hsum. simpl in Hsum.
    split; [reflexivity | simpl; lia].
  - rewrite indexOf_next. rewrite text_length_cons in Hsum.
    destruct (Nat.ltb_spec sum (length l + e)) as [Hlt|Hge]; [lia|].
    destruct (IH ltac:(discriminate) (S idx) (sum - (length l + e))%nat
                ltac:(lia)) as (r & Hidx & Hr).
    exists r. rewrite Hidx. cbn [length] in *.
    split; [f_equal; lia|].
    replace (S (S (length ls)) - 1)%nat with (S (S (length ls) - 1))
      by lia.
    exact Hr.
Qed.

Variable document : TextDocument.

Hypothesis lines_nonempty : lines document <> [].

Let e := length (eol_text (eol document)).

Lemma lines_positive : (0 < length (lines document))%nat.
Proof. destruct (lines document); [contradiction | simpl; lia]. Qed.

Lemma document_length_last :
  (prefix_length e (lines document) (length (lines document) - 1)
   + length (lineText document (length (lines document) - 1)))%nat
  = document_length document.
Proof.
  pose proof lines_positive as Hpos.
  unfold document_length, text_length. fold e.
  replace (length (lines document))
    with (S (length (lines document) - 1)) at 3 by lia.
  rewrite prefix_length_S by lia. unfold lineText. lia.
Qed.

Lemma validatePosition_id (p : Position) :
  valid_position document p -> validatePosition document p = p.
Proof.
  intros [Hl Hc]. destruct p as [l c]. cbn [line character] in *.
  rewrite validatePosition_inside by exact Hl.
  f_equal. lia.
Qed.

Lemma offsetAt_valid (p : Position) :
  valid_position document p ->
  offsetAt document p
  = Z.of_nat (prefix_length e (lines document) (line p) + character p).
Proof.
  intros Hp. unfold offsetAt. rewrite validatePosition_id by exact Hp.
  reflexivity.
Qed.

(** The position of any offset lies in the document. *)
Lemma positionAt_valid (offset : Z) :
  valid_position document (positionAt document offset).
Proof.
  unfold positionAt, valid_position. fold e.
  destruct (le_lt_dec (Z.to_nat (Z.max 0 offset))
              (text_length e (lines document))) as [Hin|Hout].
  - destruct (indexOf_spec e (lines document) lines_nonempty O _ Hin)
      as (k & r & -> & Hk & _). cbn [line character Nat.add].
    split; [exact Hk | lia].
  - destruct (indexOf_past e (lines document) lines_nonempty O _ Hout)
      as (r & -> & _). cbn [line character Nat.add].
    pose proof lines_positive. split; lia.
Qed.

(** The position of an offset past the end is the end of the text. *)
Lemma offsetAt_positionAt_past (offset : Z) :
  Z.of_nat (document_length document) < offset ->
  offsetAt document (positionAt document offset)
  = Z.of_nat (document_length document).
Proof.
  intros Hpast.
  rewrite offsetAt_valid by apply positionAt_valid.
  unfold positionAt. fold e. unfold document_length in Hpast. fold e in Hpast.
  destruct (indexOf_past e (lines document) lines_nonempty O
              (Z.to_nat (Z.max 0 offset)) ltac:(lia)) as (r & -> & Hr).
  cbn [line character Nat.add]. rewrite <- document_length_last.
  unfold lineText in *. lia.
Qed.

(** With line ends of one code unit every offset is sent to the position
    of the nearest offset of the text. *)
Lemma offsetAt_positionAt_clamped (offset : Z) :
  eol document = EOL_LF ->
  offsetAt document (positionAt document offset)
  = Z.max 0 (Z.min offset (Z.of_nat (document_length document))).
Proof.
  intros Hlf.
  destruct (Z_lt_le_dec (Z.of_nat (document_length document)) offset)
    as [Hpast|Hin].
  - rewrite offsetAt_positionAt_past by exact Hpast. lia.
  - destruct (Z_lt_le_dec offset 0) as [Hneg|Hpos].
    + assert (H0 : positionAt document offset = positionAt document 0).
      { unfold positionAt. rewrite !Z.max_l by lia. reflexivity. }
      rewrite H0.
      rewrite (offsetAt_positionAt document lines_nonempty 0 Hlf)
        by (fold e; lia).
      lia.
    + rewrite (offsetAt_positionAt document lines_nonempty offset Hlf)
        by (unfold document_length in Hin; lia).
      lia.
Qed.

Lemma middleLines_length (count : nat) :
  forall from,
    (from + count <= length (lines document))%nat ->
    prefix_length e (lines document) (from + count)
    = (prefix_length e (lines document) from
       + length (middleLines document from count))%nat.
Proof.
  induction count as [|count IH]; intros from Hle.
  - rewrite Nat.add_0_r. simpl. lia.
  - cbn [middleLines]. rewrite !length_app. fold e.
    replace (from + S count)%nat with (S from + count)%nat by lia.
    rewrite IH by lia. rewrite prefix_length_S by lia.
    unfold lineText. lia.
Qed.

(** The text read between two positions of the document, the first not
    after the second, is as long as their offsets are apart. *)
Lemma getText_length (a b : Position) :
  valid_position document a ->
  valid_position document b ->
  not_after a b ->
  Z.of_nat (length (getText document (mkRange a b)))
  = offsetAt document b - offsetAt document a.
Proof.
  intros Ha Hb Hab.
  rewrite (offsetAt_valid a Ha), (offsetAt_valid b Hb).
  unfold getText, validateRange. cbn [range_start range_end].
  rewrite (validatePosition_id a Ha), (validatePosition_id b Hb).
  destruct Ha as [Hla Hca], Hb as [Hlb Hcb].
  destruct Hab as [Hlt|[Heq Hle]].
  - destruct (Nat.eqb_spec (line a) (line b)) as [Hsame|_]; [lia|].
    rewrite !length_app, length_drop, length_take. fold e.
    pose proof (middleLines_length (line b - line a - 1) (S (line a))
                  ltac:(lia)) as Hmid.
    replace (S (line a) + (line b - line a - 1))%nat with (line b)
      in Hmid by lia.
    rewrite prefix_length_S in Hmid by lia.
    unfold lineText in *. lia.
  - rewrite Heq, Nat.eqb_refl. unfold substring.
    rewrite length_take, length_drop. rewrite Heq in Hca. lia.
Qed.

Lemma new_Range_length (a b : Position) :
  valid_position document a ->
  valid_position document b ->
  offsetAt document a <= offsetAt document b ->
  Z.of_nat (length (getText document (new_Range a b)))
  = offsetAt document b - offsetAt document a.
Proof.
  intros Ha Hb Hoff. unfold new_Range.
  destruct (isBefore a b) eqn:Hbefore.
  - apply getText_length; try assumption.
    unfold isBefore in Hbefore. unfold not_after.
    apply orb_true_iff in Hbefore as [H|H].
    + left. apply Nat.ltb_lt. exact H.
    + apply andb_true_iff in H as [H1 H2].
      apply Nat.eqb_eq in H1. apply Nat.ltb_lt in H2. right. lia.
  - assert (Hba : not_after b a).
    { unfold isBefore in Hbefore. unfold not_after.
      apply orb_false_iff in Hbefore as [H1 H2].
      apply Nat.ltb_ge in H1. apply andb_false_iff in H2.
      destruct (Nat.eq_dec (line a) (line b)) as [Heq|Hne].
      - right. split; [lia|]. destruct H2 as [H2|H2].
        + apply Nat.eqb_neq in H2. contradiction.
        + apply Nat.ltb_ge in H2. exact H2.
      - left. lia. }
    pose proof (getText_length b a Hb Ha Hba) as Hlen. lia.
Qed.

End MoreOffsets.

Section Window.

Variable amb : Ambient.
Variable document : TextDocument.
Variable position : Position.

(** X18: in a document with one-unit line ends and for a non-negative
    character limit, the request says that the window reaches the end of
    the document exactly when the cursor offset plus the limit lies past
    the length of the text: a window that stops precisely at the end of
    the text is reported as not reaching it. *)
Theorem region_includes_end_exact :
  lines document <> [] ->
  eol document = EOL_LF ->
  0 <= CHAR_LIMIT amb ->
  (region_includes_end (request_window amb document position) = true
   <-> Z.of_nat (document_length document)
       < offsetAt document position + CHAR_LIMIT amb).
Proof.
  intros Hlines Hlf Hlimit.
  pose proof (offsetAt_bounds document Hlines position) as Hb.
  fold (document_length document) in Hb.
  unfold request_window. cbn [region_includes_end].
  rewrite (offsetAt_positionAt_clamped document Hlines _ Hlf).
  rewrite negb_true_iff, Z.eqb_neq. lia.
Qed.

(** X19: in a document with one-unit line ends, for a cursor in the
    document and a non-negative character limit, the text sent before
    the cursor has as many code units as the cursor offset or the limit,
    whichever is smaller, and the text sent after it as many as the limit
    or what follows the cursor, whichever is smaller: neither side is
    longer than the limit. *)
Theorem request_window_lengths :
  lines document <> [] ->
  eol document = EOL_LF ->
  valid_position document position ->
  0 <= CHAR_LIMIT amb ->
  Z.of_nat (length (before (request_window amb document position)))
  = Z.min (offsetAt document position) (CHAR_LIMIT amb)
  /\ Z.of_nat (length (after (request_window amb document position)))
     = Z.min (CHAR_LIMIT amb)
             (Z.of_nat (document_length document)
              - offsetAt document position)
  /\ Z.of_nat (length (before (request_window amb document position)))
     <= CHAR_LIMIT amb
  /\ Z.of_nat (length (after (request_window amb document position)))
     <= CHAR_LIMIT amb.
Proof.
  intros Hlines Hlf Hvalid Hlimit.
  pose proof (offsetAt_bounds document Hlines position) as Hb.
  fold (document_length document) in Hb.
  assert (Hbefore :
    Z.of_nat (length (before (request_window amb document position)))
    = Z.min (offsetAt document position) (CHAR_LIMIT amb)).
  { unfold request_window. cbn [before].
    rewrite (new_Range_length document).
    - rewrite (offsetAt_positionAt_clamped document Hlines _ Hlf). lia.
    - apply positionAt_valid. exact Hlines.
    - exact Hvalid.
    - rewrite (offsetAt_positionAt_clamped document Hlines _ Hlf). lia. }
  assert (Hafter :
    Z.of_nat (length (after (request_window amb document position)))
    = Z.min (CHAR_LIMIT amb)
            (Z.of_nat (document_length document)
             - offsetAt document position)).
  { unfold request_window. cbn [after].
    rewrite (new_Range_length document).
    - rewrite (offsetAt_positionAt_clamped document Hlines _ Hlf). lia.
    - exact Hvalid.
    - apply positionAt_valid. exact Hlines.
    - rewrite (offsetAt_positionAt_clamped document Hlines _ Hlf). lia. }
  rewrite Hbefore, Hafter. repeat split; lia.
Qed.

End Window.

(** ** The further properties on the sample document *)

Lemma returned_list_length_witness :
  exists l,
    outcome (provideCompletionItems
               (Sample.ambient [] [] (Normal (Some Sample.response)))
               Sample.document (mkPosition 1 11) Sample.token
               Sample.context) = Normal (Some l)
    /\ length (items l) = 3%nat.
Proof.
  assert (H : exists l,
    outcome (provideCompletionItems
               (Sample.ambient [] [] (Normal (Some Sample.response)))
               Sample.document (mkPosition 1 11) Sample.token
               Sample.context) = Normal (Some l))
    by (eexists; vm_compute; reflexivity).
  destruct H as [l Hl]. exists l. split; [exact Hl|].
  rewrite (returned_list_length (Sample.ambient [] [] (Normal (Some Sample.response)))
           Sample.document (mkPosition 1 11) Sample.token Sample.context
           Sample.response eq_refl l Hl).
  vm_compute. reflexivity.
Defined.

Lemma returned_list_preselect_witness :
  exists l item,
    outcome (provideCompletionItems
               (Sample.ambient [] [] (Normal (Some Sample.response)))
               Sample.document (mkPosition 1 11) Sample.token
               Sample.context) = Normal (Some l)
    /\ items l !! O = Some item
    /\ preselect item = true.
Proof.
  assert (H : exists l item,
    outcome (provideCompletionItems
               (Sample.ambient [] [] (Normal (Some Sample.response)))
               Sample.document (mkPosition 1 11) Sample.token
               Sample.context) = Normal (Some l)
    /\ items l !! O = Some item)
    by (eexists; eexists; split; vm_compute; reflexivity).
  destruct H as (l & item & Hl & Hitem). exists l, item.
  split; [exact Hl|]. split; [exact Hitem|].
  apply (returned_list_preselect (Sample.ambient [] [] (Normal (Some Sample.response)))
           Sample.document (mkPosition 1 11) Sample.token Sample.context
           Sample.response eq_refl l O
           item Hl Hitem).
  reflexivity.
Defined.

Lemma returned_list_command_witness :
  exists l item,
    outcome (provideCompletionItems
               (Sample.ambient [] [] (Normal (Some Sample.response)))
               Sample.document (mkPosition 1 11) Sample.token
               Sample.context) = Normal (Some l)
    /\ items l !! 1%nat = Some item
    /\ item_command item = None.
Proof.
  assert (H : exists l item,
    outcome (provideCompletionItems
               (Sample.ambient [] [] (Normal (Some Sample.response)))
               Sample.document (mkPosition 1 11) Sample.token
               Sample.context) = Normal (Some l)
    /\ items l !! 1%nat = Some item)
    by (eexists; eexists; split; vm_compute; reflexivity).
  destruct H as (l & item & Hl & Hitem). exists l, item.
  split; [exact Hl|]. split; [exact Hitem|].
  destruct (returned_list_command (Sample.ambient [] [] (Normal (Some Sample.response)))
           Sample.document (mkPosition 1 11) Sample.token Sample.context
           Sample.response eq_refl l
              1%nat item Hl Hitem) as (candidate & _ & _ & Hoff).
  apply Hoff. reflexivity.
Defined.

Lemma returned_list_kind_documentation_witness :
  exists l item,
    outcome (provideCompletionItems
               (Sample.ambient [] [] (Normal (Some Sample.response)))
               Sample.document (mkPosition 1 11) Sample.token
               Sample.context) = Normal (Some l)
    /\ items l !! 2%nat = Some item
    /\ exists candidate,
         results Sample.response !! 2%nat = Some candidate
         /\ item_kind item = kind candidate.
Proof.
  assert (H : exists l item,
    outcome (provideCompletionItems
               (Sample.ambient [] [] (Normal (Some Sample.response)))
               Sample.document (mkPosition 1 11) Sample.token
               Sample.context) = Normal (Some l)
    /\ items l !! 2%nat = Some item)
    by (eexists; eexists; split; vm_compute; reflexivity).
  destruct H as (l & item & Hl & Hitem). exists l, item.
  split; [exact Hl|]. split; [exact Hitem|].
  destruct (returned_list_kind_documentation (Sample.ambient [] [] (Normal (Some Sample.response)))
           Sample.document (mkPosition 1 11) Sample.token Sample.context
           Sample.response eq_refl l 2%nat item Hl Hitem)
    as (candidate & Hc & Hkind & _).
  exists candidate. auto.
Defined.

Lemma returned_list_sorted_witness :
  exists l item_j item_k,
    outcome (provideCompletionItems
               (Sample.ambient [] [] (Normal (Some Sample.response)))
               Sample.document (mkPosition 1 11) Sample.token
               Sample.context) = Normal (Some l)
    /\ items l !! O = Some item_j
    /\ items l !! 2%nat = Some item_k
    /\ ltb (sortText item_j) (sortText item_k) = true.
Proof.
  assert (H : exists l item_j item_k,
    outcome (provideCompletionItems
               (Sample.ambient [] [] (Normal (Some Sample.response)))
               Sample.document (mkPosition 1 11) Sample.token
               Sample.context) = Normal (Some l)
    /\ items l !! O = Some item_j
    /\ items l !! 2%nat = Some item_k)
    by (eexists; eexists; eexists; repeat split; vm_compute; reflexivity).
  destruct H as (l & item_j & item_k & Hl & Hj & Hk).
  exists l, item_j, item_k.
  split; [exact Hl|]. split; [exact Hj|]. split; [exact Hk|].
  apply (returned_list_sorted (Sample.ambient [] [] (Normal (Some Sample.response)))
           Sample.document (mkPosition 1 11) Sample.token Sample.context
           Sample.response eq_refl l O 2%nat
           item_j item_k); [simpl; lia | exact Hl | lia | exact Hj
                            | exact Hk].
Defined.

Lemma sortText_collision_witness :
  exists item_i item_j,
    outcome (makeCompletionItem (Sample.ambient [] [] (Normal None))
               Sample.document 1 (mkPosition 1 12) (lit "tabnine") []
               (Sample.entry "bar") []) = Normal item_i
    /\ outcome (makeCompletionItem (Sample.ambient [] [] (Normal None))
                  Sample.document (N.to_nat 65537) (mkPosition 1 12)
                  (lit "tabnine") [] (Sample.entry "qux") [])
       = Normal item_j
    /\ sortText item_i = sortText item_j.
Proof.
  destruct (sortText_collision (Sample.ambient [] [] (Normal None))
              Sample.document (mkPosition 1 12) (lit "tabnine") []
              (Sample.entry "bar") (Sample.entry "qux") [] 1
              (N.to_nat 65537))
    as (item_i & item_j & Hi & Hj & Heq).
  - simpl. lia.
  - exists item_i, item_j. split; [exact Hi|]. split; [exact Hj|].
    apply Heq. rewrite N2Nat.id. reflexivity.
Defined.

Lemma escapeTabStopSign_injective_witness :
  lit "a$b" = lit "a$b".
Proof.
  apply (escapeTabStopSign_injective (lit "a$b") (lit "a$b")).
  reflexivity.
Defined.


Lemma returned_list_detail_witness :
  exists l item,
    outcome (provideCompletionItems
               (Sample.ambient [] [] (Normal (Some Sample.response)))
               Sample.document (mkPosition 1 11) Sample.token
               Sample.context) = Normal (Some l)
    /\ items l !! O = Some item
    /\ item_detail item <> [].
Proof.
  assert (H : exists l item,
    outcome (provideCompletionItems
               (Sample.ambient [] [] (Normal (Some Sample.response)))
               Sample.document (mkPosition 1 11) Sample.token
               Sample.context) = Normal (Some l)
    /\ items l !! O = Some item)
    by (eexists; eexists; split; vm_compute; reflexivity).
  destruct H as (l & item & Hl & Hitem). exists l, item.
  split; [exact Hl|]. split; [exact Hitem|].
  apply (returned_list_detail
           (Sample.ambient [] [] (Normal (Some Sample.response)))
           Sample.document (mkPosition 1 11) Sample.token Sample.context
           Sample.response l O item);
    [vm_compute; discriminate | reflexivity | exact Hl | exact Hitem].
Defined.

Lemma detailMessage_first_string_witness :
  detailMessage (Sample.ambient [] [] (Normal None))
    (Some [lit "a"; []; lit "b"])
  = join [LF] [lit "a"; []; lit "b"].
Proof.
  apply (detailMessage_first_string (Sample.ambient [] [] (Normal None))
           (Some [lit "a"; []; lit "b"])).
  - reflexivity.
  - discriminate.
Defined.

Lemma completionIsAllowed_line_decisive_witness :
  exists e,
    outcome (completionIsAllowed
               (Sample.ambient [lit "bar"; lit "("; lit "foo"] []
                  (Normal None))
               Sample.document (mkPosition 1 12)) = Throw e.
Proof.
  rewrite (completionIsAllowed_line_decisive
             (Sample.ambient [lit "bar"; lit "("; lit "foo"] []
                (Normal None))
             Sample.document (mkPosition 1 12) [lit "bar"] [lit "foo"]
             (lit "(")).
  - vm_compute. eexists. reflexivity.
  - vm_compute. reflexivity.
  - intros q [<-|[]]. vm_compute. reflexivity.
  - vm_compute. discriminate.
Defined.

Lemma completionIsAllowed_file_decisive_witness :
  outcome (completionIsAllowed
             (Sample.ambient [lit "bar"] [lit "zzz"; lit "main"; lit "("]
                (Normal None))
             Sample.document (mkPosition 1 12)) = Normal false.
Proof.
  rewrite (completionIsAllowed_file_decisive
             (Sample.ambient [lit "bar"] [lit "zzz"; lit "main"; lit "("]
                (Normal None))
             Sample.document (mkPosition 1 12) [lit "zzz"] [lit "("]
             (lit "main")).
  - vm_compute. reflexivity.
  - intros q [<-|[]]. vm_compute. reflexivity.
  - vm_compute. reflexivity.
  - intros q [<-|[]]. vm_compute. reflexivity.
  - vm_compute. discriminate.
Defined.

Lemma provideCompletionItems_prefix_too_long_witness :
  outcome (provideCompletionItems
             (Sample.ambient [] []
                (Normal (Some (mkResult (lit "let y = foo.bar")
                                 [Sample.entry "baz"] None))))
             Sample.document (mkPosition 1 12) Sample.token Sample.context)
  = Normal None.
Proof.
  rewrite (provideCompletionItems_prefix_too_long
             (Sample.ambient [] []
                (Normal (Some (mkResult (lit "let y = foo.bar")
                                 [Sample.entry "baz"] None))))
             Sample.document (mkPosition 1 12) Sample.token Sample.context
             (mkResult (lit "let y = foo.bar") [Sample.entry "baz"] None)).
  - reflexivity.
  - vm_compute. reflexivity.
  - reflexivity.
  - discriminate.
  - simpl. lia.
Defined.

Lemma region_includes_end_exact_witness :
  region_includes_end
    (request_window (Sample.ambient [] [] (Normal None)) Sample.document
       (mkPosition 1 12)) = true.
Proof.
  apply (region_includes_end_exact (Sample.ambient [] [] (Normal None))
           Sample.document (mkPosition 1 12)).
  - discriminate.
  - reflexivity.
  - simpl. lia.
  - vm_compute. reflexivity.
Defined.

Lemma request_window_lengths_witness :
  Z.of_nat
    (length (before (request_window (Sample.ambient [] [] (Normal None))
                       Sample.document (mkPosition 1 12))))
  = 21.
Proof.
  destruct (request_window_lengths (Sample.ambient [] [] (Normal None))
              Sample.document (mkPosition 1 12)) as [H _].
  - discriminate.
  - reflexivity.
  - split; simpl; lia.
  - simpl. lia.
  - rewrite H. vm_compute. reflexivity.
Defined.
